(** * The Universal Equaddle Law module ([qiskit.py])

    A shallow embedding of the two computations of the module:

    - the circuit construction (register offsets, the gate calls made on
      [qc], [birth_proclamation_circuit], [apply_trade_barter]);
    - the footprint check [check_accountability_footprint] over the table of
      measurement counts.

    Python integers are [Z]; Python floats are IEEE binary64 numbers, given
    by the Standard Library's [spec_float] at [prec = 53], [emax = 1024];
    the [counts] dictionary is a [gmap string Z]; a raised exception is the
    [Raise] outcome of a small error monad.

    The circuit object [qc] is mutated in place by the calls made on it, and
    a call may raise: the construction is a program over the circuit that
    returns the circuit as it leaves it together with its outcome, so that
    what the circuit holds when a statement raises is part of the model. *)

From Stdlib Require Import ZArith Lia Floats.
From stdpp Require Import gmap strings list fin_maps pretty.

Set Warnings "-inexact-float".
Local Open Scope Z_scope.

(** ** Exceptions and the error monad *)

(** Messages of the circuit library's [CircuitError], as far as the calls of
    the module can meet them: "Index i out of range for size n.",
    "duplicate qubit arguments", "One or more of the arguments are empty"
    and the refusal of a register of negative size. *)
Inductive circuit_error : Set :=
  | IndexOutOfRange (index size : Z)
  | DuplicateQubitArguments
  | EmptyArguments
  | NegativeRegisterSize (size : Z).

(** The first three are the built-in exceptions the module's expressions can
    raise ([max] of an empty sequence and the conversion of an integer of
    more than 4300 digits to text, [/] by zero, [/] with a quotient above the
    float range).  [TypeError] is raised when a call passes a keyword the
    callee does not have, [CircuitError] by the circuit library.  The last
    four are the error classes named by the specification; no statement of
    the module raises them. *)
Inductive exn : Set :=
  | ValueError
  | ZeroDivisionError
  | OverflowError
  | TypeError
  | CircuitError (message : circuit_error)
  | EmptyDistribution
  | NegativeCount
  | InvalidRegisterLayout
  | OperationIndexOutOfRange.

Inductive result (A : Type) : Type :=
  | Ok (a : A)
  | Raise (e : exn).
Arguments Ok {A} a.
Arguments Raise {A} e.

#[global] Instance result_ret : MRet result := @Ok.
#[global] Instance result_bind : MBind result :=
  fun A B f r => match r with Ok a => f a | Raise e => Raise e end.

(** ** Python built-ins used by the footprint check *)

Module Py.

(** [max(iterable)] over integers: [ValueError] on an empty iterable. *)
Definition max (l : list Z) : result Z :=
  match l with
  | [] => Raise ValueError
  | c :: l' => Ok (foldl Z.max c l')
  end.

(** [sum(iterable)]: starts from [0] and adds from the left. *)
Definition sum (l : list Z) : Z := foldl Z.add 0 l.

(** [dict.values()]. *)
Definition values (d : gmap string Z) : list Z := (map_to_list d).*2.

(** The operand of an integer true division: the integer itself, with
    mantissa of any size and exponent 0 (no rounding happens here). *)
Definition of_int (z : Z) : spec_float :=
  match z with
  | Z0 => S754_zero false
  | Zpos m => S754_finite false m 0
  | Zneg m => S754_finite true m 0
  end.

(** [a / b] on two integers: the binary64 number nearest to the exact
    quotient (ties to even), [ZeroDivisionError] when [b = 0] and
    [OverflowError] when the rounded quotient is beyond the largest
    finite float. *)
Definition truediv (a b : Z) : result spec_float :=
  if decide (b = 0) then Raise ZeroDivisionError
  else match SFdiv prec emax (of_int a) (of_int b) with
       | S754_infinity _ => Raise OverflowError
       | q => Ok q
       end.

(** [x > y] on floats. *)
Definition gt (x y : spec_float) : bool := SFltb y x.

(** [sys.int_max_str_digits]: the default limit on the number of digits of
    an integer converted to text. *)
Definition int_max_str_digits : Z := 4300.

(** [str(z)], which is also how an f-string formats an integer: the decimal
    digits, with a minus sign for a negative number; [ValueError] when the
    number has more than [int_max_str_digits] digits. *)
Definition str (z : Z) : result string :=
  if decide (Z.abs z < 10 ^ int_max_str_digits) then Ok (pretty z)
  else Raise ValueError.

End Py.

(** ** The footprint check *)

(** The float literal [0.15]: [0x1.3333333333333p-3]. *)
Definition threshold : spec_float := S754_finite false 5404319552844595 (-55).

(** The two branches of the check: "FLUX DETECTED (High Footprint)" is the
    concentrated outcome, "ABSOLUTE (Low Footprint)" the fragmented one. *)
Inductive footprint : Set :=
  | FLUX_DETECTED
  | ABSOLUTE.

Definition CONCENTRATED : footprint := FLUX_DETECTED.
Definition FRAGMENTED : footprint := ABSOLUTE.

Definition max_count (counts : gmap string Z) : result Z :=
  Py.max (Py.values counts).

Definition total_shots (counts : gmap string Z) : Z :=
  Py.sum (Py.values counts).

(** The value of the expression [max_count / total_shots]. *)
Definition footprint_ratio (counts : gmap string Z) : result spec_float :=
  m ← max_count counts;
  Py.truediv m (total_shots counts).

Definition check_accountability_footprint (counts : gmap string Z)
  : result footprint :=
  m ← max_count counts;
  let total := total_shots counts in
  ratio ← Py.truediv m total;
  if Py.gt ratio threshold then Ok FLUX_DETECTED else Ok ABSOLUTE.

(** ** Floats of the circuit construction *)

Module Float64.

Definition add := SFadd prec emax.
Definition mul := SFmul prec emax.
Definition div := SFdiv prec emax.
Definition sqrt := SFsqrt prec emax.

(** An integer operand of a mixed expression such as [3.14159 * 1000]
    or [np.sqrt(5)]; the integers of the module are small and convert
    exactly. *)
Definition of_int (z : Z) : spec_float := binary_normalize prec emax z 0 false.

(** [np.pi], the literal [3.141592653589793]. *)
Definition pi : spec_float := S754_finite false 7074237752028440 (-51).
(** The literal [3.14159]. *)
Definition lit_3_14159 : spec_float := S754_finite false 7074231776675438 (-51).
(** The literal [0.0001]. *)
Definition lit_0_0001 : spec_float := S754_finite false 7378697629483821 (-66).

End Float64.

(** ** Global configuration (section 1 of the module) *)

Definition PHI : spec_float :=
  Float64.div (Float64.add (Float64.of_int 1) (Float64.sqrt (Float64.of_int 5)))
              (Float64.of_int 2).
Definition MASS_CONSTANT : spec_float :=
  Float64.mul Float64.lit_3_14159 (Float64.of_int 1000).
Definition PNEUMATIC_DENSITY : spec_float :=
  Float64.mul Float64.lit_0_0001 Float64.pi.

(** The four register sizes.  The module fixes each of them to 2; the
    offsets and the gate calls below are written over the named constants,
    so the embedding takes them as a record and [reference_sizing] is the
    module's own configuration. *)
Record widths : Set := Widths {
  PHASE_QUBITS : Z;
  EXISTENCE_QUBITS : Z;
  RESOURCE_QUBITS : Z;
  TPP_VALUE_QUBITS : Z
}.

Definition reference_sizing : widths := Widths 2 2 2 2.

Definition TOTAL_QUBITS (w : widths) : Z :=
  PHASE_QUBITS w + EXISTENCE_QUBITS w + RESOURCE_QUBITS w + TPP_VALUE_QUBITS w.

Definition P_START (w : widths) : Z := 0.
Definition E_START (w : widths) : Z := P_START w + PHASE_QUBITS w.
Definition R_START (w : widths) : Z := E_START w + EXISTENCE_QUBITS w.
Definition V_START (w : widths) : Z := R_START w + RESOURCE_QUBITS w.

(** [range(a, b)]. *)
Definition range (a b : Z) : list Z := seqZ a (b - a).

(** The index range of each register. *)
Definition Phase (w : widths) : list Z := range (P_START w) (E_START w).
Definition Existence (w : widths) : list Z := range (E_START w) (R_START w).
Definition Resource (w : widths) : list Z := range (R_START w) (V_START w).
Definition Value (w : widths) : list Z := range (V_START w) (TOTAL_QUBITS w).

(** ** The circuit object *)

(** The entries of [qc.data], one per gate applied: the gate, its angle,
    the indices of the qubits it acts on and its label. *)
Inductive instruction : Set :=
  | HGate (qubit : Z)
  | CXGate (control target : Z)
  | PhaseGate (theta : spec_float) (qubit : Z) (label : string)
  | CRZGate (theta : spec_float) (control target : Z) (label : string)
  | XGate (qubit : Z)
  | RXGate (theta : spec_float) (qubit : Z) (label : string)
  | RZGate (phi : spec_float) (qubit : Z) (label : string)
  | CSwapGate (control target1 target2 : Z)
  | Barrier (label : option string).

(** [QuantumCircuit] is the circuit library's builder.  The module only
    calls it, so the embedding keeps of it what the calls of the module
    depend on: every gate method checks the qubits it is given and then
    appends its instructions to [data], in call order.  An integer names a
    qubit as an index into a Python list does; an index outside the
    circuit, a gate given one qubit twice and a gate given an empty list of
    qubits are each refused with [CircuitError], and nothing is appended by
    a refused call.  The keyword [label] is taken by [barrier] and by the
    gate methods [p], [crz], [rx] and [rz]; [append] has no such
    parameter. *)
Module QuantumCircuit.

Record t : Set := Build {
  num_qubits : Z;
  name : string;
  data : list instruction
}.

(** [QuantumCircuit(n, name=nm)]. *)
Definition new (n : Z) (nm : string) : result t :=
  if decide (n < 0) then Raise (CircuitError (NegativeRegisterSize n))
  else Ok (Build n nm []).

(** The qubit an integer stands for: [qc.qubits[i]], counted from the end
    of the list when [i] is negative. *)
Definition qubit (qc : t) (i : Z) : result Z :=
  let n := num_qubits qc in
  if decide (0 <= i < n) then Ok i
  else if decide (- n <= i < 0) then Ok (n + i)
  else Raise (CircuitError (IndexOutOfRange i n)).

Definition push (i : instruction) (qc : t) : t :=
  Build (num_qubits qc) (name qc) (data qc ++ [i]).

(** A gate on one qubit, and a gate on two. *)
Definition gate1 (g : Z -> instruction) (q : Z) (qc : t) : result t :=
  q' ← qubit qc q;
  Ok (push (g q') qc).

Definition gate2 (g : Z -> Z -> instruction) (a b : Z) (qc : t) : result t :=
  a' ← qubit qc a;
  b' ← qubit qc b;
  if decide (a' = b') then Raise (CircuitError DuplicateQubitArguments)
  else Ok (push (g a' b') qc).

(** [qc.h(qubits)] with a range of qubits: one Hadamard per qubit. *)
Definition h (qubits : list Z) (qc : t) : result t :=
  qs ← mapM (qubit qc) qubits;
  if decide (qs = []) then Raise (CircuitError EmptyArguments)
  else Ok (foldl (fun c q => push (HGate q) c) qc qs).

Definition cx (control target : Z) : t -> result t := gate2 CXGate control target.
Definition p (theta : spec_float) (q : Z) (label : string) : t -> result t :=
  gate1 (fun q' => PhaseGate theta q' label) q.
Definition crz (theta : spec_float) (control target : Z) (label : string)
  : t -> result t :=
  gate2 (fun c' t' => CRZGate theta c' t' label) control target.
Definition x (q : Z) : t -> result t := gate1 XGate q.
Definition rx (theta : spec_float) (q : Z) (label : string) : t -> result t :=
  gate1 (fun q' => RXGate theta q' label) q.
Definition rz (phi : spec_float) (q : Z) (label : string) : t -> result t :=
  gate1 (fun q' => RZGate phi q' label) q.

(** [qc.append(CSwapGate(), [c, a, b])], with or without [label=...].
    The parameters of [append] are [instruction], [qargs], [cargs] and
    [copy]: a call that passes [label] is refused with [TypeError] when its
    arguments are bound, before the method does anything. *)
Definition append_cswap (qargs : Z * Z * Z) (label : option string) (qc : t)
  : result t :=
  match label with
  | Some _ => Raise TypeError
  | None =>
      let '(c, a, b) := qargs in
      c' ← qubit qc c;
      a' ← qubit qc a;
      b' ← qubit qc b;
      if decide (NoDup [c'; a'; b']) then Ok (push (CSwapGate c' a' b') qc)
      else Raise (CircuitError DuplicateQubitArguments)
  end.

(** [qc.barrier(label=...)] and [qc.barrier()]: a barrier over all qubits. *)
Definition barrier (label : option string) (qc : t) : result t :=
  Ok (push (Barrier label) qc).

End QuantumCircuit.

(** ** Programs over the circuit *)

(** A sequence of statements working on [qc]: run on a circuit it gives the
    circuit as the statements leave it and either a value or the exception
    that stopped the run.  What was appended before the exception stays in
    the circuit. *)
Definition program (A : Type) : Type :=
  QuantumCircuit.t -> QuantumCircuit.t * result A.

#[global] Instance program_ret : MRet program := fun A a qc => (qc, Ok a).
#[global] Instance program_bind : MBind program :=
  fun A B k m qc =>
    match m qc with
    | (qc', Ok a) => k a qc'
    | (qc', Raise e) => (qc', Raise e)
    end.

(** A method call on [qc] as a statement. *)
Definition call (method : QuantumCircuit.t -> result QuantumCircuit.t)
  : program unit :=
  fun qc =>
    match method qc with
    | Ok qc' => (qc', Ok ())
    | Raise e => (qc, Raise e)
    end.

(** An expression that does not touch [qc]. *)
Definition eval {A : Type} (r : result A) : program A := fun qc => (qc, r).

(** ** State preparation (section 2 of the module) *)

Definition state_preparation (w : widths) : program unit :=
  (* 2.1 *)
  call (QuantumCircuit.h (range (P_START w) (E_START w))) ;;
  call (QuantumCircuit.barrier (Some "P_Infinite_Phases"%string)) ;;
  (* 2.2 *)
  call (QuantumCircuit.cx (P_START w) (E_START w)) ;;
  call (QuantumCircuit.cx (P_START w + 1) (E_START w + 1)) ;;
  call (QuantumCircuit.barrier (Some "E_Existence_Entanglement"%string)) ;;
  (* 2.3 *)
  call (QuantumCircuit.cx (E_START w) (R_START w)) ;;
  call (QuantumCircuit.cx (E_START w + 1) (R_START w + 1)) ;;
  call (QuantumCircuit.barrier (Some "R_Equaddle_Enforcement"%string)) ;;
  (* 2.4 *)
  call (QuantumCircuit.p (Float64.mul PHI Float64.pi) (R_START w)
          "R_Phi_Infinity_Fabric_0") ;;
  call (QuantumCircuit.p (Float64.mul PHI Float64.pi) (R_START w + 1)
          "R_Phi_Infinity_Fabric_1") ;;
  call (QuantumCircuit.crz MASS_CONSTANT (E_START w) (R_START w)
          "E_MC_Waveforms_Transfer") ;;
  call (QuantumCircuit.barrier (Some "Hyperdimensional_Energy_Layer"%string)).

(** ** Ternant proclamation (section 3 of the module) *)

(** [birth_proclamation_circuit(qc, entity_index)]; the circuit it is given
    and returns is the circuit the program runs on. *)
Definition birth_proclamation_circuit (w : widths) (entity_index : Z)
  : program unit :=
  (* 3.1 *)
  call (QuantumCircuit.x (V_START w + 1)) ;;
  index ← eval (Py.str entity_index);
  call (QuantumCircuit.barrier (Some ("V_TPP_Proclamation_" +:+ index))) ;;
  (* 3.2 *)
  call (QuantumCircuit.cx (E_START w) (V_START w)) ;;
  call (QuantumCircuit.cx (E_START w + 1) (V_START w + 1)) ;;
  (* 3.3 *)
  let angle_no_mead := Float64.div Float64.pi (Float64.sqrt (Float64.of_int 5)) in
  call (QuantumCircuit.rx angle_no_mead (V_START w) "V_Hyperdimensional_Rx") ;;
  call (QuantumCircuit.rz PNEUMATIC_DENSITY (V_START w + 1)
          "V_Pneumatic_Macro_Density") ;;
  call (QuantumCircuit.barrier None).

(** ** Trade or barter (section 4 of the module) *)

(** [apply_trade_barter(qc)]. *)
Definition apply_trade_barter (w : widths) : program unit :=
  call (QuantumCircuit.append_cswap (V_START w, R_START w, R_START w + 1)
          (Some "TPP_Trade_Barter_CSWAP"%string)) ;;
  call (QuantumCircuit.barrier (Some "R_Value_Exchange_Final"%string)).

(** ** The construction as a whole *)

(** How a run of module-level statements on a new circuit ends: it ran to
    its last statement, or a statement raised and the circuit is left as it
    was at that point, or the constructor itself raised and there is no
    circuit. *)
Inductive ending : Type :=
  | Completed (qc : QuantumCircuit.t)
  | Stopped (qc : QuantumCircuit.t) (e : exn)
  | NoCircuit (e : exn).

(** [qc = QuantumCircuit(TOTAL_QUBITS, name=...)] followed by statements. *)
Definition run (w : widths) (statements : program unit) : ending :=
  match QuantumCircuit.new (TOTAL_QUBITS w) "Equaddle_Nights_Landing_Final" with
  | Raise e => NoCircuit e
  | Ok qc =>
      match statements qc with
      | (qc', Ok _) => Completed qc'
      | (qc', Raise e) => Stopped qc' e
      end
  end.

(** The module from the creation of the circuit to
    [qc = birth_proclamation_circuit(qc, 1)]. *)
Definition through_proclamation (w : widths) : ending :=
  run w (state_preparation w ;; birth_proclamation_circuit w 1).

(** The module from the creation of the circuit to
    [qc = apply_trade_barter(qc)], where the construction ends.
    Measurement and simulation (section 5 of the module) come after it. *)
Definition Equaddle_Nights_Landing_Final (w : widths) : ending :=
  run w (state_preparation w ;; birth_proclamation_circuit w 1 ;;
         apply_trade_barter w).

(** The instructions the circuit holds when a run ends. *)
Definition built (r : ending) : list instruction :=
  match r with
  | Completed qc | Stopped qc _ => QuantumCircuit.data qc
  | NoCircuit _ => []
  end.

(** The composer of the specification: the operation sequence of the
    finished construction, or the exception that ended it. *)
Definition Composer (w : widths) : result (list instruction) :=
  match Equaddle_Nights_Landing_Final w with
  | Completed qc => Ok (QuantumCircuit.data qc)
  | Stopped _ e | NoCircuit e => Raise e
  end.

(** ** Observations on an operation sequence *)

(** The qubit indices of an instruction (a barrier names none). *)
Definition qubits (i : instruction) : list Z :=
  match i with
  | HGate q | XGate q => [q]
  | PhaseGate _ q _ | RXGate _ q _ | RZGate _ q _ => [q]
  | CXGate c t | CRZGate _ c t _ => [c; t]
  | CSwapGate c a b => [c; a; b]
  | Barrier _ => []
  end.

Definition index_in_range (n q : Z) : bool := (0 <=? q) && (q <? n).

Definition indices_in_range (n : Z) (ops : list instruction) : bool :=
  forallb (fun i => forallb (index_in_range n) (qubits i)) ops.

Definition is_barrier (i : instruction) : bool :=
  match i with Barrier _ => true | _ => false end.

Definition is_crz (i : instruction) : bool :=
  match i with CRZGate _ _ _ _ => true | _ => false end.

Definition barrier_count (ops : list instruction) : nat :=
  length (List.filter is_barrier ops).

Definition barrier_labels (ops : list instruction) : list (option string) :=
  omap (fun i => match i with Barrier l => Some l | _ => None end) ops.

Definition gates (ops : list instruction) : list instruction :=
  List.filter (fun i => negb (is_barrier i)) ops.

(** [segments_from cur ops] cuts [ops] at its barriers: the runs of gates
    each closed by a barrier, and the gates left after the last barrier.
    [cur] holds, in reverse, the gates of the run being read. *)
Fixpoint segments_from (cur ops : list instruction)
  : list (list instruction) * list instruction :=
  match ops with
  | [] => ([], rev cur)
  | Barrier _ :: ops' =>
      let '(segs, rest) := segments_from [] ops' in (rev cur :: segs, rest)
  | i :: ops' => segments_from (i :: cur) ops'
  end.

Definition segments (ops : list instruction)
  : list (list instruction) * list instruction := segments_from [] ops.

(** ** The logical stages of the specification

    The gates of the module, grouped by the seven stages the specification
    lists. *)

Definition stage_superposition (w : widths) : list instruction :=
  HGate <$> Phase w.
Definition stage_phase_existence (w : widths) : list instruction :=
  [CXGate (P_START w) (E_START w); CXGate (P_START w + 1) (E_START w + 1)].
Definition stage_existence_resource (w : widths) : list instruction :=
  [CXGate (E_START w) (R_START w); CXGate (E_START w + 1) (R_START w + 1)].
Definition stage_golden_ratio (w : widths) : list instruction :=
  [PhaseGate (Float64.mul PHI Float64.pi) (R_START w) "R_Phi_Infinity_Fabric_0";
   PhaseGate (Float64.mul PHI Float64.pi) (R_START w + 1) "R_Phi_Infinity_Fabric_1"].
Definition stage_energy (w : widths) : list instruction :=
  [CRZGate MASS_CONSTANT (E_START w) (R_START w) "E_MC_Waveforms_Transfer"].
Definition stage_proclamation_flip (w : widths) : list instruction :=
  [XGate (V_START w + 1)].
Definition stage_proclamation_rest (w : widths) : list instruction :=
  [CXGate (E_START w) (V_START w); CXGate (E_START w + 1) (V_START w + 1);
   RXGate (Float64.div Float64.pi (Float64.sqrt (Float64.of_int 5))) (V_START w)
     "V_Hyperdimensional_Rx";
   RZGate PNEUMATIC_DENSITY (V_START w + 1) "V_Pneumatic_Macro_Density"].
Definition stage_proclamation (w : widths) : list instruction :=
  stage_proclamation_flip w ++ stage_proclamation_rest w.
Definition stage_exchange (w : widths) : list instruction :=
  [CSwapGate (V_START w) (R_START w) (R_START w + 1)].

Definition logical_stages (w : widths) : list (list instruction) :=
  [stage_superposition w; stage_phase_existence w; stage_existence_resource w;
   stage_golden_ratio w; stage_energy w; stage_proclamation w; stage_exchange w].

(** The placement the specification asks for: seven barriers, one closing
    each logical stage, nothing after the last. *)
Definition barrier_after_each_stage (w : widths) (ops : list instruction) : Prop :=
  barrier_count ops = 7%nat /\ segments ops = (logical_stages w, []).

(** The placement the state preparation and the proclamation have: the
    golden-ratio rotations and the energy coupling share one barrier, and
    the proclamation block has a barrier after its basis flip and another at
    its end. *)
Definition module_segments (w : widths) : list (list instruction) :=
  [stage_superposition w; stage_phase_existence w; stage_existence_resource w;
   stage_golden_ratio w ++ stage_energy w;
   stage_proclamation_flip w; stage_proclamation_rest w].

Definition module_barrier_labels : list (option string) :=
  [Some "P_Infinite_Phases"; Some "E_Existence_Entanglement";
   Some "R_Equaddle_Enforcement"; Some "Hyperdimensional_Energy_Layer";
   Some "V_TPP_Proclamation_1"; None]%string.

(** The validity rule the specification states for the widths: every width
    positive and the four widths equal.  The module has no such check. *)
Definition valid_layout (w : widths) : bool :=
  (0 <? PHASE_QUBITS w) && (0 <? EXISTENCE_QUBITS w) &&
  (0 <? RESOURCE_QUBITS w) && (0 <? TPP_VALUE_QUBITS w) &&
  (PHASE_QUBITS w =? EXISTENCE_QUBITS w) &&
  (EXISTENCE_QUBITS w =? RESOURCE_QUBITS w) &&
  (RESOURCE_QUBITS w =? TPP_VALUE_QUBITS w).

(** The instructions of the state preparation in closed form: the Hadamards
    of the Phase register followed by the fixed tail. *)
Definition preparation_sequence (w : widths) : list instruction :=
  stage_superposition w ++
  Barrier (Some "P_Infinite_Phases"%string) ::
  stage_phase_existence w ++
  Barrier (Some "E_Existence_Entanglement"%string) ::
  stage_existence_resource w ++
  Barrier (Some "R_Equaddle_Enforcement"%string) ::
  stage_golden_ratio w ++ stage_energy w ++
  [Barrier (Some "Hyperdimensional_Energy_Layer"%string)].

(** The instructions [birth_proclamation_circuit] adds for an entity whose
    index is written [index]. *)
Definition proclamation_block (w : widths) (index : string) : list instruction :=
  stage_proclamation_flip w ++
  Barrier (Some ("V_TPP_Proclamation_" +:+ index)) ::
  stage_proclamation_rest w ++ [Barrier None].

(** The instructions of the state preparation and of the proclamation of
    entity 1. *)
Definition operation_sequence (w : widths) : list instruction :=
  preparation_sequence w ++ proclamation_block w "1".

(** ** Auxiliary definitions for the properties *)

(** Tables used as examples. *)
Definition table_two_halves : gmap string Z :=
  {[ "00"%string := 512; "01"%string := 512 ]}.
Definition table_minus_one : gmap string Z := {[ "00"%string := -1 ]}.
Definition table_zero : gmap string Z := {[ "00"%string := 0 ]}.
Definition table_1_3 : gmap string Z := {[ "00"%string := 1; "01"%string := 3 ]}.
Definition table_3_1 : gmap string Z := {[ "10"%string := 3; "11"%string := 1 ]}.
(** Sixty-four outcomes of sixteen shots each, 1024 shots in all. *)
Definition table_64_even : gmap string Z :=
  list_to_map ((fun i => (pretty i, 16)) <$> seqZ 0 64).
Definition table_huge : gmap string Z :=
  {[ "000"%string := 3 * 10 ^ 20 + 1; "001"%string := 3 * 10 ^ 20;
     "010"%string := 3 * 10 ^ 20; "011"%string := 3 * 10 ^ 20;
     "100"%string := 3 * 10 ^ 20; "101"%string := 3 * 10 ^ 20;
     "110"%string := 2 * 10 ^ 20 - 1 ]}.
Definition table_overflow : gmap string Z :=
  {[ "0"%string := 2 ^ 1024; "1"%string := 1 - 2 ^ 1024 ]}.

(** Seven outcomes with counts 3,3,3,3,3,3,2: the ratio is 3/20, which
    rounds to the float [0.15] itself, and [0.15 > 0.15] is false. *)
Definition table_3_of_20 : gmap string Z :=
  {[ "000"%string := 3; "001"%string := 3; "010"%string := 3;
     "011"%string := 3; "100"%string := 3; "101"%string := 3;
     "110"%string := 2 ]}.

(** [inbetween m l N D]: the rational [N / D] lies in [m, m + 1) at the
    place the location [l] says: on [m], below the middle, on the middle or
    above it. *)
Definition inbetween (m : Z) (l : location) (N D : Z) : Prop :=
  match l with
  | loc_Exact => N = m * D
  | loc_Inexact Lt => m * D < N /\ 2 * N < (2 * m + 1) * D
  | loc_Inexact Eq => 2 * N = (2 * m + 1) * D
  | loc_Inexact Gt => (2 * m + 1) * D < 2 * N /\ N < (m + 1) * D
  end.

(** The floats [1.0] and [0.0]. *)
Definition float_one : spec_float := S754_finite false 4503599627370496 (-52).
Definition float_zero : spec_float := S754_zero false.

(** More tables used as examples. *)
Definition table_all_on_one : gmap string Z :=
  {[ "00"%string := 1024; "01"%string := 0; "10"%string := 0 ]}.
Definition table_five_outcomes : gmap string Z :=
  {[ "000"%string := 205; "001"%string := 205; "010"%string := 205;
     "011"%string := 205; "100"%string := 204 ]}.
Definition table_uniform_8 : gmap string Z :=
  {[ "000"%string := 128; "001"%string := 128; "010"%string := 128;
     "011"%string := 128; "100"%string := 128; "101"%string := 128;
     "110"%string := 128; "111"%string := 128 ]}.
Definition table_154 : gmap string Z :=
  {[ "00"%string := 154; "01"%string := 150; "10"%string := 150;
     "11"%string := 150; "000"%string := 150; "001"%string := 150;
     "010"%string := 120 ]}.
Definition table_160 : gmap string Z :=
  {[ "00"%string := 160; "01"%string := 150; "10"%string := 150;
     "11"%string := 150; "000"%string := 150; "001"%string := 150;
     "010"%string := 114 ]}.

(** The bits the couplings and rotations address by name: the first two
    of each register. *)
Definition coupled_bits (w : widths) : list Z :=
  [P_START w; P_START w + 1; E_START w; E_START w + 1;
   R_START w; R_START w + 1; V_START w; V_START w + 1].

(** [referenced ops q]: some instruction of [ops] acts on qubit [q]. *)
Definition referenced (ops : list instruction) (q : Z) : Prop :=
  exists i, i ∈ ops /\ q ∈ qubits i.

(** The registers each kind of instruction of the state preparation and of
    the proclamation works on.  A controlled flip couples bit [j] of one
    register with bit [j] of another: Phase into Existence, Existence into
    Resource, Existence into Value.  No exchange is among them. *)
Definition register_discipline (w : widths) (i : instruction) : Prop :=
  match i with
  | HGate q => q ∈ Phase w
  | CXGate c t =>
      exists j,
        (c = P_START w + j /\ t = E_START w + j /\ c ∈ Phase w /\ t ∈ Existence w) \/
        (c = E_START w + j /\ t = R_START w + j /\ c ∈ Existence w /\ t ∈ Resource w) \/
        (c = E_START w + j /\ t = V_START w + j /\ c ∈ Existence w /\ t ∈ Value w)
  | PhaseGate _ q _ => q ∈ Resource w
  | CRZGate _ c t _ => c ∈ Existence w /\ t ∈ Resource w
  | XGate q | RXGate _ q _ | RZGate _ q _ => q ∈ Value w
  | CSwapGate _ _ _ => False
  | Barrier _ => True
  end.

(** A circuit is well formed when each of its instructions acts on qubits
    of the circuit, no qubit twice. *)
Definition well_formed (qc : QuantumCircuit.t) : Prop :=
  Forall (fun i => NoDup (qubits i) /\
                   Forall (fun q => 0 <= q < QuantumCircuit.num_qubits qc) (qubits i))
         (QuantumCircuit.data qc).

(** The exceptions of the calls on the circuit. *)
Definition call_error (e : exn) : Prop :=
  e = TypeError \/ exists message, e = CircuitError message.

(** A program keeps to the circuit when it leaves a well-formed circuit well
    formed, with the qubits and the name it had, and stops with nothing but
    the exceptions of the calls. *)
Definition keeps_to_circuit {A : Type} (m : program A) : Prop :=
  forall qc, well_formed qc ->
    well_formed (m qc).1 /\
    QuantumCircuit.num_qubits (m qc).1 = QuantumCircuit.num_qubits qc /\
    QuantumCircuit.name (m qc).1 = QuantumCircuit.name qc /\
    forall e, (m qc).2 = Raise e -> call_error e.

(** * Properties *)

(** The literal and the sample tables of the specification, evaluated. *)

Example threshold_literal : Prim2SF 0.15%float = threshold.
Proof. reflexivity. Qed.

Example footprint_single :
  footprint_ratio {[ "00"%string := 1024 ]} = Ok (Prim2SF 1.0%float) /\
  check_accountability_footprint {[ "00"%string := 1024 ]} = Ok CONCENTRATED.
Proof. split; vm_compute; reflexivity. Qed.

Example footprint_two_halves :
  footprint_ratio {[ "00"%string := 512; "01"%string := 512 ]}
    = Ok (Prim2SF 0.5%float) /\
  check_accountability_footprint {[ "00"%string := 512; "01"%string := 512 ]}
    = Ok CONCENTRATED.
Proof. split; vm_compute; reflexivity. Qed.

Example footprint_64_even :
  size table_64_even = 64%nat /\ total_shots table_64_even = 1024 /\
  footprint_ratio table_64_even = Ok (Prim2SF 0.015625%float) /\
  check_accountability_footprint table_64_even = Ok FRAGMENTED.
Proof. repeat split; vm_compute; reflexivity. Qed.

Example footprint_exact_threshold :
  footprint_ratio table_3_of_20 = Ok threshold /\
  check_accountability_footprint table_3_of_20 = Ok FRAGMENTED.
Proof. split; vm_compute; reflexivity. Qed.

(** ** Rounding of an integer quotient to binary64 *)

Section Rounding.

Lemma fexp_binary64 (e : Z) : fexp prec emax e = Z.max (e - 53) (-1074).
Proof. reflexivity. Qed.

Lemma Zdigits2_log2 (z : Z) : 0 < z -> Zdigits2 z = Z.log2 z + 1.
Proof.
  destruct z as [|p|p]; try lia. intros _. simpl.
  induction p as [p IH|p IH|]; simpl; try lia.
  - destruct p; simpl in *; lia.
  - destruct p; simpl in *; lia.
Qed.

Lemma Zdigits2_nonneg (z : Z) : 0 <= Zdigits2 z.
Proof. destruct z; simpl; lia. Qed.

Lemma Zdigits2_le_pow2 (z k : Z) : 0 <= k -> 0 <= z <= 2 ^ k -> Zdigits2 z <= k + 1.
Proof.
  intros Hk [Hz Hle].
  destruct (Z.eq_dec z 0) as [->|Hne]; [simpl; lia|].
  rewrite Zdigits2_log2 by lia.
  assert (Z.log2 z <= Z.log2 (2 ^ k)) by (apply Z.log2_le_mono; lia).
  rewrite Z.log2_pow2 in H by lia. lia.
Qed.

Lemma Zdigits2_gt (z : Z) : 0 <= z -> z < 2 ^ Zdigits2 z.
Proof.
  intros Hz. destruct (Z.eq_dec z 0) as [->|Hne]; [simpl; lia|].
  rewrite Zdigits2_log2 by lia.
  pose proof (Z.log2_spec z ltac:(lia)) as [_ H].
  by rewrite <- Z.add_1_r in H.
Qed.

Lemma Zdigits2_mono (a b : Z) : 0 < a <= b -> Zdigits2 a <= Zdigits2 b.
Proof.
  intros [Ha Hab]. rewrite !Zdigits2_log2 by lia.
  pose proof (Z.log2_le_mono a b Hab). lia.
Qed.

Lemma shr_1_m (mrs : shr_record) :
  0 <= shr_m mrs -> shr_m (shr_1 mrs) = shr_m mrs / 2.
Proof.
  destruct mrs as [m r s]. cbn [shr_m]. intros Hm.
  destruct m as [|[p|p|]|p]; cbn [shr_1 shr_m]; try lia.
  - reflexivity.
  - apply Z.div_unique with 1; lia.
  - apply Z.div_unique with 0; lia.
  - reflexivity.
Qed.

Lemma pow2_xI (n : positive) :
  2 ^ Z.pos n~1 = 2 * (2 ^ Z.pos n * 2 ^ Z.pos n).
Proof.
  replace (Z.pos n~1) with (1 + (Z.pos n + Z.pos n)) by lia.
  rewrite !Z.pow_add_r by lia. lia.
Qed.

Lemma pow2_xO (n : positive) : 2 ^ Z.pos n~0 = 2 ^ Z.pos n * 2 ^ Z.pos n.
Proof.
  replace (Z.pos n~0) with (Z.pos n + Z.pos n) by lia.
  rewrite Z.pow_add_r by lia. lia.
Qed.

Lemma iter_pos_shr_1_m (n : positive) (mrs : shr_record) :
  0 <= shr_m mrs ->
  shr_m (SpecFloat.iter_pos shr_1 n mrs) = shr_m mrs / 2 ^ Z.pos n.
Proof.
  revert mrs. induction n as [n IH|n IH|]; intros mrs Hm;
    cbn [SpecFloat.iter_pos].
  - assert (H1 : 0 <= shr_m (shr_1 mrs)).
    { rewrite shr_1_m by done. apply Z.div_pos; lia. }
    assert (H2 : 0 <= shr_m (SpecFloat.iter_pos shr_1 n (shr_1 mrs))).
    { rewrite IH by done. apply Z.div_pos; lia. }
    rewrite IH, IH, shr_1_m by done.
    rewrite !Z.div_div by lia. by rewrite pow2_xI.
  - assert (H2 : 0 <= shr_m (SpecFloat.iter_pos shr_1 n mrs)).
    { rewrite IH by done. apply Z.div_pos; lia. }
    rewrite IH, IH by done.
    rewrite !Z.div_div by lia. by rewrite pow2_xO.
  - rewrite shr_1_m by done. reflexivity.
Qed.

Lemma shr_record_of_loc_m (m : Z) (l : location) :
  shr_m (shr_record_of_loc m l) = m.
Proof. destruct l as [|[]]; reflexivity. Qed.

(** The mantissa and the exponent after [shr]. *)
Lemma shr_spec (mrs : shr_record) (e n : Z) :
  0 <= shr_m mrs ->
  shr_m (fst (shr mrs e n)) = shr_m mrs / 2 ^ Z.max 0 n /\
  snd (shr mrs e n) = e + Z.max 0 n.
Proof.
  intros Hm. destruct n as [|p|p]; simpl.
  - rewrite Z.div_1_r. lia.
  - rewrite iter_pos_shr_1_m by done. split; [reflexivity|lia].
  - rewrite Z.div_1_r. lia.
Qed.

Lemma round_nearest_even_bounds (m : Z) (l : location) :
  m <= round_nearest_even m l <= m + 1.
Proof. destruct l as [|[]]; simpl; try lia. destruct (Z.even m); lia. Qed.

Lemma div_pow2_small (m d k : Z) :
  0 <= m -> 0 <= k -> m < 2 ^ d -> 0 <= d ->
  m / 2 ^ k + 1 <= 2 ^ Z.max 0 (d - k).
Proof.
  intros Hm Hk Hlt Hd.
  assert (Hpk : 0 < 2 ^ k) by (apply Z.pow_pos_nonneg; lia).
  destruct (Z_lt_le_dec d k) as [Hdk|Hdk].
  - rewrite Z.max_l by lia. rewrite Z.div_small; [simpl; lia|].
    split; [done|]. eapply Z.lt_le_trans; [exact Hlt|].
    apply Z.pow_le_mono_r; lia.
  - rewrite Z.max_r by lia.
    assert (m / 2 ^ k < 2 ^ (d - k)); [|lia].
    apply Z.div_lt_upper_bound; [done|].
    rewrite <- Z.pow_add_r by lia. by replace (k + (d - k)) with d by lia.
Qed.

(** Rounding a mantissa that is not negative, from an exponent well below
    the top of the range, never gives an infinity or a NaN. *)
Lemma binary_round_aux_finite (sx : bool) (mx ex : Z) (lx : location) :
  0 <= mx -> Zdigits2 mx + ex <= 1023 -> ex <= 971 ->
  binary_round_aux prec emax sx mx ex lx = S754_zero sx \/
  exists m e, binary_round_aux prec emax sx mx ex lx = S754_finite sx m e.
Proof.
  intros Hmx HD Hex. unfold binary_round_aux, shr_fexp.
  set (n1 := fexp prec emax (Zdigits2 mx + ex) - ex).
  assert (Hr : 0 <= shr_m (shr_record_of_loc mx lx))
    by (by rewrite shr_record_of_loc_m).
  destruct (shr_spec (shr_record_of_loc mx lx) ex n1 Hr) as [Hm1 He1].
  destruct (shr (shr_record_of_loc mx lx) ex n1) as [mrs1 e1].
  cbn [fst snd] in Hm1, He1. rewrite shr_record_of_loc_m in Hm1.
  set (m2 := round_nearest_even (shr_m mrs1) (loc_of_shr_record mrs1)).
  pose proof (round_nearest_even_bounds (shr_m mrs1) (loc_of_shr_record mrs1))
    as Hm2. fold m2 in Hm2.
  assert (Hp1 : 0 < 2 ^ Z.max 0 n1) by (apply Z.pow_pos_nonneg; lia).
  assert (H1 : 0 <= shr_m mrs1) by (rewrite Hm1; apply Z.div_pos; lia).
  set (n2 := fexp prec emax (Zdigits2 m2 + e1) - e1).
  assert (Hr2 : 0 <= shr_m (shr_record_of_loc m2 loc_Exact))
    by (rewrite shr_record_of_loc_m; lia).
  destruct (shr_spec (shr_record_of_loc m2 loc_Exact) e1 n2 Hr2) as [Hm3 He3].
  destruct (shr (shr_record_of_loc m2 loc_Exact) e1 n2) as [mrs3 e3].
  cbn [fst snd] in Hm3, He3. rewrite shr_record_of_loc_m in Hm3.
  assert (H3 : 0 <= shr_m mrs3).
  { rewrite Hm3. apply Z.div_pos; [lia|]. apply Z.pow_pos_nonneg; lia. }
  assert (Hdig : Zdigits2 m2 + e1 <= 1024).
  { pose proof (Zdigits2_gt mx Hmx) as Hgt.
    pose proof (Zdigits2_nonneg mx) as Hdn.
    pose proof (div_pow2_small mx (Zdigits2 mx) (Z.max 0 n1) Hmx
                  ltac:(lia) Hgt Hdn) as Hsm.
    rewrite <- Hm1 in Hsm.
    assert (Hd2 : Zdigits2 m2 <= Z.max 0 (Zdigits2 mx - Z.max 0 n1) + 1).
    { apply Zdigits2_le_pow2; lia. }
    subst n1. rewrite fexp_binary64 in *. lia. }
  destruct (shr_m mrs3) as [|p|p]; [by left| |lia].
  right. subst n1 n2. rewrite fexp_binary64 in *.
  replace (e3 <=? emax - prec) with true; [by eexists _, _|].
  symmetry. apply Z.leb_le. change (emax - prec) with 971. lia.
Qed.

(** The quotient of two positive integers, the first no larger than the
    second, is a finite float. *)
Lemma SFdiv_le_finite (a b : positive) :
  (a <= b)%positive ->
  SFdiv prec emax (S754_finite false a 0) (S754_finite false b 0)
    = S754_zero false \/
  exists m e, SFdiv prec emax (S754_finite false a 0) (S754_finite false b 0)
              = S754_finite false m e.
Proof.
  intros Hab. unfold SFdiv, SFdiv_core_binary. cbn [xorb].
  set (e' := Z.min (fexp prec emax (Zdigits2 (Z.pos a) + 0 - (Zdigits2 (Z.pos b) + 0)))
               (0 - 0)).
  assert (Hdig : Zdigits2 (Z.pos a) <= Zdigits2 (Z.pos b))
    by (apply Zdigits2_mono; lia).
  assert (He' : -1074 <= e' <= -53).
  { subst e'. rewrite fexp_binary64. lia. }
  destruct (0 - 0 - e') as [|s|s] eqn:Hs; [lia| |lia].
  rewrite Z.shiftl_mul_pow2 by lia.
  destruct (Z.div_eucl (Z.pos a * 2 ^ Z.pos s) (Z.pos b)) as [q r] eqn:Hqr.
  assert (Hq : q = Z.pos a * 2 ^ Z.pos s / Z.pos b).
  { unfold Z.div. by rewrite Hqr. }
  assert (Hps : 0 < 2 ^ Z.pos s) by (apply Z.pow_pos_nonneg; lia).
  assert (Hq0 : 0 <= q) by (rewrite Hq; apply Z.div_pos; lia).
  assert (Hq1 : q <= 2 ^ Z.pos s).
  { rewrite Hq. apply Z.div_le_upper_bound; [lia|]. nia. }
  apply binary_round_aux_finite; [done| |lia].
  pose proof (Zdigits2_le_pow2 q (Z.pos s) ltac:(lia) ltac:(lia)). lia.
Qed.

Lemma Zdigits2_bounds (z : Z) :
  0 < z -> 2 ^ (Zdigits2 z - 1) <= z < 2 ^ Zdigits2 z.
Proof.
  intros Hz. rewrite Zdigits2_log2 by done.
  pose proof (Z.log2_spec z Hz) as H. rewrite <- Z.add_1_r in H.
  by replace (Z.log2 z + 1 - 1) with (Z.log2 z) by lia.
Qed.

Lemma Zdigits2_unique (z d : Z) :
  0 < d -> 2 ^ (d - 1) <= z < 2 ^ d -> Zdigits2 z = d.
Proof.
  intros Hd [Hlo Hhi].
  assert (Hz : 0 < z).
  { eapply Z.lt_le_trans; [|exact Hlo]. apply Z.pow_pos_nonneg; lia. }
  rewrite Zdigits2_log2 by done.
  rewrite (Z.log2_unique z (d - 1)); [lia|lia|].
  by replace (Z.succ (d - 1)) with d by lia.
Qed.

Lemma new_location_inbetween (b q r : Z) :
  0 < b -> 0 <= r < b -> inbetween q (new_location b r) (q * b + r) b.
Proof.
  intros Hb Hr. unfold new_location, new_location_even, new_location_odd.
  destruct (Z.even b) eqn:Hev.
  - destruct (Z.eqb_spec r 0) as [->|Hr0]; [simpl; lia|].
    destruct (Z.compare_spec (2 * r) b); simpl; lia.
  - assert (Hodd : Z.odd b = true) by (by rewrite <- Z.negb_even, Hev).
    apply Z.odd_spec in Hodd as [k Hk].
    destruct (Z.eqb_spec r 0) as [->|Hr0]; [simpl; lia|].
    destruct (Z.compare_spec (2 * r + 1) b); simpl; lia.
Qed.

Lemma shr_1_inbetween (m : Z) (l : location) (N D : Z) :
  0 <= m -> 0 < D -> inbetween m l N D ->
  inbetween (shr_m (shr_1 (shr_record_of_loc m l)))
            (loc_of_shr_record (shr_1 (shr_record_of_loc m l))) N (2 * D).
Proof.
  intros Hm HD Hin.
  destruct m as [|[p|p|]|p]; [| | | |lia].
  - destruct l as [|[]];
      cbn [inbetween shr_1 shr_record_of_loc shr_m loc_of_shr_record orb]
        in Hin |- *; lia.
  - rewrite Pos2Z.inj_xI in Hin.
    destruct l as [|[]];
      cbn [inbetween shr_1 shr_record_of_loc shr_m loc_of_shr_record orb]
        in Hin |- *; nia.
  - rewrite Pos2Z.inj_xO in Hin.
    destruct l as [|[]];
      cbn [inbetween shr_1 shr_record_of_loc shr_m loc_of_shr_record orb]
        in Hin |- *; nia.
  - destruct l as [|[]];
      cbn [inbetween shr_1 shr_record_of_loc shr_m loc_of_shr_record orb]
        in Hin |- *; lia.
Qed.

Lemma round_nearest_even_inbetween (m : Z) (l : location) (N D : Z) :
  0 < D -> inbetween m l N D ->
  (2 * round_nearest_even m l - 1) * D <= 2 * N
    <= (2 * round_nearest_even m l + 1) * D.
Proof.
  intros HD Hin.
  destruct l as [|[]]; cbn [inbetween round_nearest_even] in Hin |- *;
    try destruct (Z.even m); nia.
Qed.

Lemma loc_of_shr_record_of_loc (m : Z) (l : location) :
  loc_of_shr_record (shr_record_of_loc m l) = l.
Proof. destruct l as [|[]]; reflexivity. Qed.

Lemma shr_fexp_53 (m e : Z) (l : location) :
  Zdigits2 m = 53 -> -1074 <= e ->
  shr_fexp prec emax m e l = (shr_record_of_loc m l, e).
Proof.
  intros Hd He. unfold shr_fexp. rewrite fexp_binary64, Hd.
  replace (Z.max (53 + e - 53) (-1074) - e) with 0 by lia. reflexivity.
Qed.

Lemma shr_fexp_54 (m e : Z) (l : location) :
  Zdigits2 m = 54 -> -1075 <= e ->
  shr_fexp prec emax m e l = (shr_1 (shr_record_of_loc m l), e + 1).
Proof.
  intros Hd He. unfold shr_fexp. rewrite fexp_binary64, Hd.
  replace (Z.max (54 + e - 53) (-1074) - e) with 1 by lia. reflexivity.
Qed.

(** Rounding a 53-bit mantissa at its location, then renormalising. *)
Lemma round_then_normalize (m1 e1 : Z) (l1 : location) (N D : Z) :
  2 ^ 52 <= m1 < 2 ^ 53 -> -1074 <= e1 -> 0 < D -> inbetween m1 l1 N D ->
  exists (M : positive) (k : Z),
    shr_fexp prec emax (round_nearest_even m1 l1) e1 loc_Exact
      = (shr_record_of_loc (Z.pos M) loc_Exact, e1 + k) /\
    0 <= k <= 1 /\ 2 ^ 52 <= Z.pos M < 2 ^ 53 /\
    (2 * Z.pos M - 1) * (D * 2 ^ k) <= 2 * N <= (2 * Z.pos M + 1) * (D * 2 ^ k).
Proof.
  intros Hm1 He1 HD Hin.
  pose proof (round_nearest_even_bounds m1 l1) as Hb.
  pose proof (round_nearest_even_inbetween m1 l1 N D HD Hin) as Herr.
  set (m2 := round_nearest_even m1 l1) in *.
  destruct (Z_lt_le_dec m2 (2 ^ 53)) as [Hlt|Hge].
  - destruct m2 as [|M|M] eqn:HM; [lia| |lia].
    exists M, 0. rewrite shr_fexp_53; [|apply Zdigits2_unique; lia|lia].
    rewrite Z.add_0_r. split; [done|]. split; [lia|]. split; [lia|].
    change (2 ^ 0) with 1. rewrite Z.mul_1_r. exact Herr.
  - assert (Hm2 : m2 = 2 ^ 53) by lia. rewrite Hm2 in *.
    exists (4503599627370496)%positive, 1.
    rewrite shr_fexp_54; [|reflexivity|lia].
    split; [reflexivity|]. split; [lia|]. split; [lia|].
    change (2 ^ 1) with 2. lia.
Qed.

(** Rounding a quotient [N / D] known through a mantissa of 53 or 54
    bits and its location: the result is a normal float within half a
    unit in the last place of [N / (D * 2 ^ k)], with [k] the number of
    places the mantissa moved. *)
Lemma binary_round_aux_nearest (q e : Z) (l : location) (N D : Z) :
  2 ^ 52 <= q < 2 ^ 54 -> -1074 <= e <= 960 -> 0 < D -> inbetween q l N D ->
  exists (M : positive) (k : Z),
    binary_round_aux prec emax false q e l = S754_finite false M (e + k) /\
    0 <= k <= 2 /\ 2 ^ 52 <= Z.pos M < 2 ^ 53 /\
    (2 * Z.pos M - 1) * (D * 2 ^ k) <= 2 * N <= (2 * Z.pos M + 1) * (D * 2 ^ k).
Proof.
  intros Hq He HD Hin. unfold binary_round_aux.
  destruct (Z_lt_le_dec q (2 ^ 53)) as [Hlt|Hge].
  - rewrite shr_fexp_53; [|apply Zdigits2_unique; lia|lia].
    rewrite shr_record_of_loc_m, loc_of_shr_record_of_loc.
    destruct (round_then_normalize q e l N D) as (M & k & -> & Hk & HM & Herr);
      [lia|lia|done|done|].
    cbn [shr_record_of_loc shr_m].
    exists M, k. replace (e + k <=? emax - prec) with true
      by (symmetry; apply Z.leb_le; change (emax - prec) with 971; lia).
    split; [done|]. split; [lia|]. split; [done|exact Herr].
  - rewrite shr_fexp_54; [|apply Zdigits2_unique; lia|lia].
    pose proof (shr_1_inbetween q l N D ltac:(lia) HD Hin) as Hin1.
    assert (Hm1 : shr_m (shr_1 (shr_record_of_loc q l)) = q / 2).
    { rewrite shr_1_m; rewrite shr_record_of_loc_m; [done|lia]. }
    set (mrs1 := shr_1 (shr_record_of_loc q l)) in *.
    destruct (round_then_normalize (shr_m mrs1) (e + 1)
                (loc_of_shr_record mrs1) N (2 * D))
      as (M & k & -> & Hk & HM & Herr); [|lia|lia|done|].
    { rewrite Hm1. split.
      - apply Z.div_le_lower_bound; lia.
      - apply Z.div_lt_upper_bound; lia. }
    cbn [shr_record_of_loc shr_m].
    exists M, (1 + k). replace (e + 1 + k) with (e + (1 + k)) by lia.
    replace (e + (1 + k) <=? emax - prec) with true
      by (symmetry; apply Z.leb_le; change (emax - prec) with 971; lia).
    split; [done|]. split; [lia|]. split; [done|].
    rewrite Z.pow_add_r by lia. change (2 ^ 1) with 2.
    replace (D * (2 * 2 ^ k)) with (2 * D * 2 ^ k) by lia. exact Herr.
Qed.

(** The quotient of two positive integers [a <= b], when it is in the
    normal range: a float [M * 2 ^ E] with a 53-bit mantissa, within half
    a unit in the last place of [a / b]. *)
Lemma SFdiv_nearest (a b : positive) :
  (a <= b)%positive -> Zdigits2 (Z.pos b) - Zdigits2 (Z.pos a) <= 1021 ->
  exists (M : positive) (E : Z),
    SFdiv prec emax (S754_finite false a 0) (S754_finite false b 0)
      = S754_finite false M E /\
    E <= 0 /\ 2 ^ 52 <= Z.pos M < 2 ^ 53 /\
    (2 * Z.pos M - 1) * Z.pos b <= Z.pos a * 2 ^ (1 - E)
      <= (2 * Z.pos M + 1) * Z.pos b.
Proof.
  intros Hab Hrange. unfold SFdiv, SFdiv_core_binary. cbn [xorb].
  pose proof (Zdigits2_bounds (Z.pos a) ltac:(lia)) as Ha.
  pose proof (Zdigits2_bounds (Z.pos b) ltac:(lia)) as Hb.
  assert (Hda : 1 <= Zdigits2 (Z.pos a)) by (simpl; lia).
  assert (Hdig : Zdigits2 (Z.pos a) <= Zdigits2 (Z.pos b))
    by (apply Zdigits2_mono; lia).
  set (d1 := Zdigits2 (Z.pos a)) in *. set (d2 := Zdigits2 (Z.pos b)) in *.
  set (e' := Z.min (fexp prec emax (d1 + 0 - (d2 + 0))) (0 - 0)).
  assert (He' : e' = d1 - d2 - 53).
  { subst e'. rewrite fexp_binary64. lia. }
  destruct (0 - 0 - e') as [|s|s] eqn:Hs; [lia| |lia].
  assert (Hsv : Z.pos s = 53 + d2 - d1) by lia.
  rewrite Z.shiftl_mul_pow2 by lia.
  destruct (Z.div_eucl (Z.pos a * 2 ^ Z.pos s) (Z.pos b)) as [q r] eqn:Hqr.
  pose proof (Z_div_mod (Z.pos a * 2 ^ Z.pos s) (Z.pos b) ltac:(lia)) as Hdm.
  rewrite Hqr in Hdm. destruct Hdm as [Heq Hr].
  (* the size of the quotient *)
  assert (HA : 2 ^ (d1 - 1) * 2 ^ Z.pos s = 2 ^ 53 * 2 ^ (d2 - 1)).
  { rewrite <- !Z.pow_add_r by lia. f_equal. lia. }
  assert (HA2 : 2 ^ d1 = 2 * 2 ^ (d1 - 1)).
  { replace d1 with (1 + (d1 - 1)) at 1 by lia. by rewrite Z.pow_add_r by lia. }
  assert (HB2 : 2 ^ d2 = 2 * 2 ^ (d2 - 1)).
  { replace d2 with (1 + (d2 - 1)) at 1 by lia. by rewrite Z.pow_add_r by lia. }
  assert (HS : 0 < 2 ^ Z.pos s) by (apply Z.pow_pos_nonneg; lia).
  assert (HpA : 0 < 2 ^ (d1 - 1)) by (apply Z.pow_pos_nonneg; lia).
  assert (HpB : 0 < 2 ^ (d2 - 1)) by (apply Z.pow_pos_nonneg; lia).
  set (S := 2 ^ Z.pos s) in *. set (A := 2 ^ (d1 - 1)) in *.
  set (B := 2 ^ (d2 - 1)) in *.
  assert (Hlo : 2 ^ 52 * Z.pos b <= Z.pos a * S) by nia.
  assert (Hhi : Z.pos a * S < 2 ^ 54 * Z.pos b) by nia.
  assert (Hq : 2 ^ 52 <= q < 2 ^ 54) by nia.
  pose proof (new_location_inbetween (Z.pos b) q r ltac:(lia) Hr) as Hin.
  replace (q * Z.pos b + r) with (Z.pos a * S) in Hin by lia.
  destruct (binary_round_aux_nearest q e' (new_location (Z.pos b) r)
              (Z.pos a * S) (Z.pos b) Hq ltac:(lia) ltac:(lia) Hin)
    as (M & k & -> & Hk & HM & Herr).
  exists M, (e' + k). split; [done|]. split; [lia|]. split; [done|].
  assert (Hpow : 2 * S = 2 ^ (1 - (e' + k)) * 2 ^ k).
  { subst S. rewrite <- Z.pow_add_r by lia.
    replace (1 - (e' + k) + k) with (1 + Z.pos s) by lia.
    by rewrite Z.pow_add_r by lia. }
  assert (Hpk : 0 < 2 ^ k) by (apply Z.pow_pos_nonneg; lia).
  set (T := 2 ^ (1 - (e' + k))) in *. set (K := 2 ^ k) in *.
  assert (H2N : 2 * (Z.pos a * S) = Z.pos a * T * K) by nia.
  rewrite H2N in Herr. split.
  - apply (Z.mul_le_mono_pos_r _ _ K); [done|]. nia.
  - apply (Z.mul_le_mono_pos_r _ _ K); [done|]. nia.
Qed.

(** Against the float [0.15]: for a quotient [a / b] with [b <= 2 ^ 52],
    the rounded quotient is above the threshold exactly when [a / b] is
    above 3/20. *)
Lemma gt_threshold_exact (a b M : positive) (E : Z) :
  Z.pos b <= 2 ^ 52 -> E <= 0 -> 2 ^ 52 <= Z.pos M < 2 ^ 53 ->
  (2 * Z.pos M - 1) * Z.pos b <= Z.pos a * 2 ^ (1 - E)
    <= (2 * Z.pos M + 1) * Z.pos b ->
  SFltb (S754_finite false 5404319552844595 (-55)) (S754_finite false M E) = true
  <-> 3 * Z.pos b < 20 * Z.pos a.
Proof.
  intros Hb HE HM [Hlo Hhi]. unfold SFltb, SFcompare.
  destruct (Z.compare_spec (-55) E) as [HEq|HLt|HGt].
  - subst E.
    assert (H56 : 2 ^ (1 - -55) = 72057594037927936) by reflexivity.
    rewrite H56 in Hlo, Hhi. clear H56.
    rewrite Pos.compare_cont_spec. cbn [Pos.switch_Eq].
    destruct (Pos.compare_spec 5404319552844595 M) as [HMe|HMl|HMg];
      [|apply Pos2Z.pos_lt_pos in HMl|apply Pos2Z.pos_lt_pos in HMg].
    + subst M. split; [discriminate|]. intros H. exfalso. lia.
    + split; [intros _|done].
      assert ((2 * 5404319552844595 + 1) * Z.pos b <= (2 * Z.pos M - 1) * Z.pos b)
        by (apply Z.mul_le_mono_nonneg_r; lia).
      lia.
    + split; [discriminate|]. intros H. exfalso.
      assert ((2 * Z.pos M + 1) * Z.pos b <= (2 * 5404319552844595 - 1) * Z.pos b)
        by (apply Z.mul_le_mono_nonneg_r; lia). lia.
  - split; [intros _|done].
    assert (Hp : 2 ^ (1 - E) <= 2 ^ 55) by (apply Z.pow_le_mono_r; lia).
    assert (H1 : (2 * 2 ^ 52 - 1) * Z.pos b <= (2 * Z.pos M - 1) * Z.pos b)
      by (apply Z.mul_le_mono_nonneg_r; lia).
    set (P := 2 ^ (1 - E)) in *. clearbody P.
    assert (H2 : Z.pos a * P <= Z.pos a * 2 ^ 55)
      by (apply Z.mul_le_mono_nonneg_l; lia).
    lia.
  - split; [discriminate|]. intros H. exfalso.
    assert (Hp : 2 ^ 57 <= 2 ^ (1 - E)) by (apply Z.pow_le_mono_r; lia).
    set (P := 2 ^ (1 - E)) in *. clearbody P.
    assert (H1 : (2 * Z.pos M + 1) * Z.pos b <= (2 * 2 ^ 53) * Z.pos b)
      by (apply Z.mul_le_mono_nonneg_r; lia).
    assert (H2 : Z.pos a * 2 ^ 57 <= Z.pos a * P)
      by (apply Z.mul_le_mono_nonneg_l; lia).
    lia.
Qed.

End Rounding.

(** ** The footprint check *)

Section PythonBuiltins.

Lemma foldl_add_foldr (l : list Z) (a : Z) :
  foldl Z.add a l = a + foldr Z.add 0 l.
Proof.
  revert a. induction l as [|c l IH]; intros a; simpl; [lia|].
  rewrite IH. lia.
Qed.

Lemma sum_cons (c : Z) (l : list Z) : Py.sum (c :: l) = c + Py.sum l.
Proof. unfold Py.sum. simpl. rewrite !foldl_add_foldr. lia. Qed.

Lemma sum_permutation (l l' : list Z) : l ≡ₚ l' -> Py.sum l = Py.sum l'.
Proof.
  induction 1 as [|c l l' _ IH|c d l|l l' l'' _ IH1 _ IH2].
  - reflexivity.
  - rewrite !sum_cons. lia.
  - rewrite !sum_cons. lia.
  - congruence.
Qed.

Lemma sum_nonneg (l : list Z) : Forall (fun c => 0 <= c) l -> 0 <= Py.sum l.
Proof.
  induction 1 as [|c l Hc _ IH]; [done|]. rewrite sum_cons. lia.
Qed.

(** In a list of counts that are not negative, no count exceeds the sum. *)
Lemma elem_le_sum (l : list Z) (c : Z) :
  Forall (fun c => 0 <= c) l -> c ∈ l -> c <= Py.sum l.
Proof.
  induction 1 as [|d l Hd Hl IH]; intros Hin; [by apply elem_of_nil in Hin|].
  rewrite sum_cons. pose proof (sum_nonneg l Hl).
  apply elem_of_cons in Hin as [->|Hin]; [lia|]. specialize (IH Hin). lia.
Qed.

Lemma foldl_max_spec (l : list Z) (a : Z) :
  (foldl Z.max a l = a \/ foldl Z.max a l ∈ l) /\
  a <= foldl Z.max a l /\ Forall (fun c => c <= foldl Z.max a l) l.
Proof.
  revert a. induction l as [|c l IH]; intros a; simpl.
  - split; [by left|]. split; [lia|constructor].
  - destruct (IH (Z.max a c)) as ([Heq|Hin] & Hle & Hall).
    + split; [|split; [lia|constructor; [lia|done]]].
      rewrite Heq. destruct (Z.max_spec a c) as [[_ ->]|[_ ->]].
      * right. apply elem_of_cons. by left.
      * by left.
    + split; [|split; [lia|constructor; [lia|done]]].
      right. apply elem_of_cons. by right.
Qed.

(** [max] returns an element of the sequence that no element exceeds. *)
Lemma max_spec (l : list Z) (m : Z) :
  Py.max l = Ok m <-> m ∈ l /\ Forall (fun c => c <= m) l.
Proof.
  destruct l as [|c l]; simpl.
  - split; [discriminate|]. intros [Hin _]. by apply elem_of_nil in Hin.
  - destruct (foldl_max_spec l c) as (Hin & Hle & Hall). split.
    + intros [= <-]. split.
      * apply elem_of_cons. destruct Hin as [->|Hin]; [by left|by right].
      * constructor; done.
    + intros [Hm Hall']. f_equal.
      apply Z.le_antisymm.
      * assert (Hx : foldl Z.max c l ∈ c :: l).
        { apply elem_of_cons. destruct Hin as [->|Hin]; [by left|by right]. }
        rewrite Forall_forall in Hall'. by apply Hall'.
      * apply elem_of_cons in Hm as [->|Hm]; [done|].
        rewrite Forall_forall in Hall. by apply Hall.
Qed.

Lemma max_nonempty (l : list Z) : l <> [] -> exists m, Py.max l = Ok m.
Proof. destruct l; [done|]. intros _. by eexists. Qed.

Lemma max_empty (l : list Z) : Py.max l = Raise ValueError <-> l = [].
Proof. destruct l; simpl; split; done. Qed.

Lemma max_permutation (l l' : list Z) : l ≡ₚ l' -> Py.max l = Py.max l'.
Proof.
  intros Hp. destruct l as [|c l].
  - apply Permutation_nil_l in Hp. by subst.
  - destruct (max_nonempty (c :: l)) as [m Hm]; [done|].
    rewrite Hm. symmetry. apply max_spec. apply max_spec in Hm as [Hin Hall].
    split; [by rewrite <- Hp|by rewrite <- Hp].
Qed.

Lemma values_empty : Py.values ∅ = [].
Proof. unfold Py.values. by rewrite map_to_list_empty. Qed.

Lemma values_nil (counts : gmap string Z) : Py.values counts = [] <-> counts = ∅.
Proof.
  unfold Py.values. split.
  - intros H. apply fmap_nil_inv in H. by apply map_to_list_empty_iff.
  - intros ->. by rewrite map_to_list_empty.
Qed.

Lemma elem_of_values (counts : gmap string Z) (c : Z) :
  c ∈ Py.values counts <-> exists k, counts !! k = Some c.
Proof.
  unfold Py.values. rewrite list_elem_of_fmap. split.
  - intros ([k c'] & -> & Hin). exists k. by apply elem_of_map_to_list.
  - intros [k Hk]. exists (k, c). split; [done|]. by apply elem_of_map_to_list.
Qed.

Lemma values_Forall (P : Z -> Prop) (counts : gmap string Z) :
  Forall P (Py.values counts) <-> map_Forall (fun _ c => P c) counts.
Proof.
  rewrite Forall_forall. unfold map_Forall. split.
  - intros H k c Hk. apply H, elem_of_values. by exists k.
  - intros H c [k Hk]%elem_of_values. by apply (H k).
Qed.

Lemma values_insert (counts : gmap string Z) (k : string) (c : Z) :
  counts !! k = None -> Py.values (<[k:=c]> counts) ≡ₚ c :: Py.values counts.
Proof.
  intros Hk. unfold Py.values. by rewrite map_to_list_insert.
Qed.

(** Renaming the keys of a table leaves its counts as they are. *)
Lemma values_kmap (f : string -> string) `{!Inj (=) (=) f}
    (counts : gmap string Z) :
  Py.values (kmap f counts) ≡ₚ Py.values counts.
Proof.
  induction counts as [|k c counts Hk _ IH] using map_first_key_ind.
  - by rewrite kmap_empty.
  - rewrite kmap_insert by done.
    rewrite values_insert, (values_insert counts) by
      (done || (rewrite lookup_kmap; done)).
    by rewrite IH.
Qed.

End PythonBuiltins.

Section TrueDivision.

Lemma truediv_by_zero (a : Z) : Py.truediv a 0 = Raise ZeroDivisionError.
Proof. reflexivity. Qed.

Lemma truediv_raises (a b : Z) (e : exn) :
  Py.truediv a b = Raise e ->
  (e = ZeroDivisionError /\ b = 0) \/ (e = OverflowError /\ b <> 0).
Proof.
  unfold Py.truediv. destruct (decide (b = 0)) as [->|Hb].
  - intros [= <-]. by left.
  - destruct (SFdiv _ _ _ _); intros [= <-]. by right.
Qed.

(** Dividing a count by a total that is at least as large never overflows. *)
Lemma truediv_finite (a b : Z) :
  0 <= a <= b -> 0 < b -> exists q, Py.truediv a b = Ok q.
Proof.
  intros [Ha Hab] Hb. unfold Py.truediv.
  destruct (decide (b = 0)) as [->|_]; [lia|].
  destruct b as [|pb|pb]; [lia| |lia].
  destruct a as [|pa|pa]; [by eexists| |lia].
  cbn [Py.of_int].
  destruct (SFdiv_le_finite pa pb ltac:(lia)) as [->|(m & e & ->)]; by eexists.
Qed.

(** For totals up to [2 ^ 52] the comparison of the rounded quotient with the
    float [0.15] is the comparison of the exact quotient with 3/20. *)
Lemma truediv_exact (a b : Z) :
  0 <= a <= b -> 0 < b <= 2 ^ 52 ->
  exists q, Py.truediv a b = Ok q /\
    (Py.gt q threshold = true <-> 3 * b < 20 * a).
Proof.
  intros [Ha Hab] [Hb Hb52]. unfold Py.truediv.
  destruct (decide (b = 0)) as [->|_]; [lia|].
  destruct b as [|pb|pb]; [lia| |lia].
  destruct a as [|pa|pa]; [| |lia].
  - eexists. split; [reflexivity|]. unfold Py.gt, threshold. cbn. split; [done|lia].
  - cbn [Py.of_int].
    assert (Hdb : Zdigits2 (Z.pos pb) <= 53).
    { apply (Zdigits2_le_pow2 _ 52); lia. }
    assert (Hda : 1 <= Zdigits2 (Z.pos pa)) by (simpl; lia).
    destruct (SFdiv_nearest pa pb ltac:(lia) ltac:(lia))
      as (M & E & -> & HE & HM & Herr).
    eexists. split; [reflexivity|]. unfold Py.gt, threshold.
    by apply gt_threshold_exact.
Qed.

Lemma gt_irrefl (q : spec_float) : Py.gt q q = false.
Proof.
  unfold Py.gt, SFltb, SFcompare.
  destruct q as [[]|[]| |[] m e]; try reflexivity;
    rewrite Z.compare_refl, Pos.compare_cont_refl; reflexivity.
Qed.

End TrueDivision.

Section FootprintCheck.

Lemma check_unfold (counts : gmap string Z) (m : Z) :
  max_count counts = Ok m ->
  check_accountability_footprint counts
  = match Py.truediv m (total_shots counts) with
    | Ok ratio => Ok (if Py.gt ratio threshold then CONCENTRATED else FRAGMENTED)
    | Raise e => Raise e
    end /\
  footprint_ratio counts = Py.truediv m (total_shots counts).
Proof.
  intros Hm. unfold check_accountability_footprint, footprint_ratio.
  rewrite Hm. cbn. split; [|done].
  destruct (Py.truediv m (total_shots counts)) as [q|e]; cbn; [|done].
  by destruct (Py.gt q threshold).
Qed.

Lemma check_empty : check_accountability_footprint ∅ = Raise ValueError.
Proof. reflexivity. Qed.

Lemma max_count_nonempty (counts : gmap string Z) :
  counts <> ∅ ->
  exists m, max_count counts = Ok m /\
    (exists k, counts !! k = Some m) /\ map_Forall (fun _ c => c <= m) counts.
Proof.
  intros Hne. destruct (max_nonempty (Py.values counts)) as [m Hm].
  { by rewrite values_nil. }
  exists m. split; [done|]. apply max_spec in Hm as [Hin Hall].
  split; [by apply elem_of_values|by apply values_Forall].
Qed.

Lemma total_shots_empty : total_shots ∅ = 0.
Proof. reflexivity. Qed.

Lemma total_shots_insert (counts : gmap string Z) (k : string) (c : Z) :
  counts !! k = None -> total_shots (<[k:=c]> counts) = c + total_shots counts.
Proof.
  intros Hk. unfold total_shots.
  rewrite (sum_permutation _ _ (values_insert counts k c Hk)). apply sum_cons.
Qed.

Lemma footprint_permutation (counts counts' : gmap string Z) :
  Py.values counts ≡ₚ Py.values counts' ->
  footprint_ratio counts = footprint_ratio counts' /\
  check_accountability_footprint counts = check_accountability_footprint counts'.
Proof.
  intros Hp. unfold footprint_ratio, check_accountability_footprint,
    max_count, total_shots.
  by rewrite (max_permutation _ _ Hp), (sum_permutation _ _ Hp).
Qed.

End FootprintCheck.

(** C1: for a table that is not empty, holds no negative count and sums to
    a positive total, the check returns a classification.  The dominant
    count [m] is a count of the table that no other exceeds; the
    denominator [total] is the sum of all the counts of the table, each
    entry counted once; the ratio is the float quotient of [m] by [total],
    correctly rounded; the branch taken is CONCENTRATED exactly when the
    ratio is above the float [0.15], FRAGMENTED otherwise, and a ratio equal
    to the threshold is FRAGMENTED.  For totals up to [2 ^ 52] this is the
    exact comparison of [m / total] with 3/20. *)
Theorem concentration_rule (counts : gmap string Z) :
  counts <> ∅ ->
  map_Forall (fun _ c => 0 <= c) counts ->
  0 < total_shots counts ->
  exists (m total : Z) (ratio : spec_float),
    max_count counts = Ok m /\
    (exists k, counts !! k = Some m) /\
    map_Forall (fun _ c => c <= m) counts /\
    total_shots counts = total /\
    total = foldr Z.add 0 ((map_to_list counts).*2) /\
    (forall k c, counts !! k = Some c ->
       total = c + foldr Z.add 0 ((map_to_list (delete k counts)).*2)) /\
    footprint_ratio counts = Ok ratio /\
    Py.truediv m total = Ok ratio /\
    ratio = SFdiv prec emax (Py.of_int m) (Py.of_int total) /\
    check_accountability_footprint counts
      = Ok (if Py.gt ratio threshold then CONCENTRATED else FRAGMENTED) /\
    (check_accountability_footprint counts = Ok CONCENTRATED
       <-> Py.gt ratio threshold = true) /\
    (ratio = threshold -> check_accountability_footprint counts = Ok FRAGMENTED) /\
    (total <= 2 ^ 52 ->
       (check_accountability_footprint counts = Ok CONCENTRATED
          <-> 3 * total < 20 * m)).
Proof.
  intros Hne Hpos Htot.
  destruct (max_count_nonempty counts Hne) as (m & Hm & [k Hk] & Hmax).
  assert (Hrange : 0 <= m <= total_shots counts).
  { split; [by apply (Hpos k)|].
    apply elem_le_sum; [by apply values_Forall|].
    apply elem_of_values. by exists k. }
  destruct (check_unfold counts m Hm) as [Hcheck Hratio].
  destruct (truediv_finite m (total_shots counts) Hrange Htot) as [ratio Hdiv].
  rewrite Hdiv in Hcheck, Hratio.
  assert (Hsum : forall t : gmap string Z,
            total_shots t = foldr Z.add 0 ((map_to_list t).*2)).
  { intros t. unfold total_shots, Py.sum, Py.values.
    rewrite foldl_add_foldr. lia. }
  exists m, (total_shots counts), ratio.
  split; [done|]. split; [by exists k|]. split; [done|]. split; [done|].
  split; [apply Hsum|]. split.
  { intros k' c Hk'. rewrite <- Hsum.
    rewrite <- (insert_delete_id counts k' c Hk') at 1.
    apply total_shots_insert. apply lookup_delete_eq. }
  split; [done|]. split; [done|]. split.
  { unfold Py.truediv in Hdiv. case_decide; [done|].
    destruct (SFdiv prec emax (Py.of_int m) (Py.of_int (total_shots counts)));
      by inversion Hdiv. }
  split; [done|].
  assert (Hiff : check_accountability_footprint counts = Ok CONCENTRATED
                 <-> Py.gt ratio threshold = true).
  { rewrite Hcheck. destruct (Py.gt ratio threshold); split; done. }
  split; [exact Hiff|]. split.
  - intros ->. rewrite Hcheck. by rewrite gt_irrefl.
  - intros H52. rewrite Hiff.
    destruct (truediv_exact m (total_shots counts) Hrange ltac:(lia))
      as (q & Hq & Hex).
    rewrite Hdiv in Hq. injection Hq as <-. exact Hex.
Qed.

Lemma concentration_rule_two_halves :
  exists (m total : Z) (ratio : spec_float),
    max_count table_two_halves = Ok m /\
    (exists k, table_two_halves !! k = Some m) /\
    map_Forall (fun _ c => c <= m) table_two_halves /\
    total_shots table_two_halves = total /\
    total = foldr Z.add 0 ((map_to_list table_two_halves).*2) /\
    (forall k c, table_two_halves !! k = Some c ->
       total = c + foldr Z.add 0 ((map_to_list (delete k table_two_halves)).*2)) /\
    footprint_ratio table_two_halves = Ok ratio /\
    Py.truediv m total = Ok ratio /\
    ratio = SFdiv prec emax (Py.of_int m) (Py.of_int total) /\
    check_accountability_footprint table_two_halves
      = Ok (if Py.gt ratio threshold then CONCENTRATED else FRAGMENTED) /\
    (check_accountability_footprint table_two_halves = Ok CONCENTRATED
       <-> Py.gt ratio threshold = true) /\
    (ratio = threshold ->
       check_accountability_footprint table_two_halves = Ok FRAGMENTED) /\
    (total <= 2 ^ 52 ->
       (check_accountability_footprint table_two_halves = Ok CONCENTRATED
          <-> 3 * total < 20 * m)).
Proof.
  apply (concentration_rule table_two_halves).
  - apply (bool_decide_unpack _). vm_compute. exact I.
  - apply (bool_decide_unpack _). vm_compute. exact I.
  - vm_compute. reflexivity.
Defined.

(** C2, as the module has it: a table holding a negative count is not
    rejected.  Its maximum is divided by its sum like that of any other
    table, and the outcome of the check is the outcome of that division
    and of the comparison with [0.15]; [NegativeCount] is never raised. *)
Theorem negative_counts_are_processed (counts : gmap string Z) :
  (exists k c, counts !! k = Some c /\ c < 0) ->
  check_accountability_footprint counts <> Raise NegativeCount /\
  exists m, max_count counts = Ok m /\
    check_accountability_footprint counts
    = match Py.truediv m (total_shots counts) with
      | Ok ratio => Ok (if Py.gt ratio threshold then CONCENTRATED else FRAGMENTED)
      | Raise e => Raise e
      end.
Proof.
  intros (k & c & Hk & _).
  assert (Hne : counts <> ∅).
  { intros ->. by rewrite lookup_empty in Hk. }
  destruct (max_count_nonempty counts Hne) as (m & Hm & _).
  destruct (check_unfold counts m Hm) as [Hcheck _].
  split; [|by exists m].
  rewrite Hcheck. destruct (Py.truediv m (total_shots counts)) as [q|e] eqn:Hd;
    [done|].
  apply truediv_raises in Hd as [[-> _]|[-> _]]; discriminate.
Qed.

Lemma negative_counts_are_processed_minus_one :
  check_accountability_footprint table_minus_one <> Raise NegativeCount /\
  exists m, max_count table_minus_one = Ok m /\
    check_accountability_footprint table_minus_one
    = match Py.truediv m (total_shots table_minus_one) with
      | Ok ratio => Ok (if Py.gt ratio threshold then CONCENTRATED else FRAGMENTED)
      | Raise e => Raise e
      end.
Proof.
  apply (negative_counts_are_processed table_minus_one).
  exists "00"%string, (-1). split; [reflexivity|lia].
Defined.

(** C2 as stated fails on the specification's own example: for the table
    with the single entry "00" -> -1 the maximum and the sum are both -1,
    the ratio is 1.0 and the check answers CONCENTRATED. *)
Lemma negative_count_is_classified :
  table_minus_one !! "00"%string = Some (-1) /\
  footprint_ratio table_minus_one = Ok (Prim2SF 1.0%float) /\
  check_accountability_footprint table_minus_one = Ok CONCENTRATED /\
  check_accountability_footprint table_minus_one <> Raise NegativeCount.
Proof.
  split; [reflexivity|]. split; [vm_compute; reflexivity|].
  assert (H : check_accountability_footprint table_minus_one = Ok CONCENTRATED)
    by (vm_compute; reflexivity).
  split; [exact H|]. rewrite H. discriminate.
Qed.

(** C3, as the module has it: on the empty table [max] raises [ValueError];
    on a table that is not empty and sums to zero the division is carried
    out and raises [ZeroDivisionError]; [EmptyDistribution] is never raised.
    The only other failure is the [OverflowError] of the division, and a
    table without negative counts never meets it: such a table fails
    exactly when it is empty or sums to zero. *)
Theorem failures_of_the_check (counts : gmap string Z) :
  (counts = ∅ -> check_accountability_footprint counts = Raise ValueError) /\
  (counts <> ∅ -> total_shots counts = 0 ->
     check_accountability_footprint counts = Raise ZeroDivisionError /\
     exists m, max_count counts = Ok m /\
       Py.truediv m (total_shots counts) = Raise ZeroDivisionError) /\
  (counts <> ∅ -> total_shots counts <> 0 ->
     check_accountability_footprint counts = Raise OverflowError \/
     exists f, check_accountability_footprint counts = Ok f) /\
  (map_Forall (fun _ c => 0 <= c) counts ->
     ((exists e, check_accountability_footprint counts = Raise e)
        <-> counts = ∅ \/ total_shots counts = 0)) /\
  check_accountability_footprint counts <> Raise EmptyDistribution.
Proof.
  assert (Hcases : counts = ∅ \/
            exists m, counts <> ∅ /\ max_count counts = Ok m /\
              (exists k, counts !! k = Some m) /\
              check_accountability_footprint counts
              = match Py.truediv m (total_shots counts) with
                | Ok ratio =>
                    Ok (if Py.gt ratio threshold then CONCENTRATED else FRAGMENTED)
                | Raise e => Raise e
                end).
  { destruct (decide (counts = ∅)) as [->|Hne]; [by left|right].
    destruct (max_count_nonempty counts Hne) as (m & Hm & Hk & _).
    destruct (check_unfold counts m Hm) as [Hcheck _]. by exists m. }
  split; [intros ->; apply check_empty|].
  split.
  { intros Hne Hz. destruct Hcases as [->|(m & _ & Hm & _ & Hcheck)]; [done|].
    rewrite Hcheck, Hz, truediv_by_zero. split; [done|].
    exists m. by rewrite truediv_by_zero. }
  split.
  { intros Hne Hnz. destruct Hcases as [->|(m & _ & Hm & _ & Hcheck)]; [done|].
    rewrite Hcheck.
    destruct (Py.truediv m (total_shots counts)) as [q|e] eqn:Hd;
      [right; by eexists|left].
    apply truediv_raises in Hd as [[_ Hz]|[-> _]]; done. }
  split.
  { intros Hpos. split.
    - intros [e He].
      destruct Hcases as [->|(m & Hne & Hm & [k Hk] & Hcheck)]; [by left|right].
      destruct (decide (total_shots counts = 0)) as [Hz|Hnz]; [done|exfalso].
      assert (Hrange : 0 <= m <= total_shots counts).
      { split; [by apply (Hpos k)|].
        apply elem_le_sum; [by apply values_Forall|].
        apply elem_of_values. by exists k. }
      destruct (truediv_finite m (total_shots counts) Hrange ltac:(lia))
        as [q Hq].
      rewrite Hcheck, Hq in He. discriminate He.
    - intros [->|Hz]; [by exists ValueError|].
      destruct Hcases as [->|(m & _ & _ & _ & Hcheck)]; [by exists ValueError|].
      exists ZeroDivisionError. by rewrite Hcheck, Hz, truediv_by_zero. }
  destruct Hcases as [->|(m & _ & _ & _ & Hcheck)]; [done|].
  rewrite Hcheck.
  destruct (Py.truediv m (total_shots counts)) as [q|e] eqn:Hd; [done|].
  apply truediv_raises in Hd as [[-> _]|[-> _]]; discriminate.
Qed.

Lemma failures_of_the_check_zero :
  check_accountability_footprint table_zero = Raise ZeroDivisionError /\
  exists m, max_count table_zero = Ok m /\
    Py.truediv m (total_shots table_zero) = Raise ZeroDivisionError.
Proof.
  destruct (failures_of_the_check table_zero) as (_ & H & _).
  apply H; [|reflexivity].
  apply (bool_decide_unpack _). vm_compute. exact I.
Defined.

(** C3 as stated fails on both kinds of table: the empty table raises
    [ValueError], and the table with the single entry "00" -> 0 reaches
    the division, with divisor zero, and raises [ZeroDivisionError]. *)
Lemma empty_distribution_is_never_raised :
  check_accountability_footprint ∅ = Raise ValueError /\
  check_accountability_footprint ∅ <> Raise EmptyDistribution /\
  total_shots table_zero = 0 /\
  max_count table_zero = Ok 0 /\
  Py.truediv 0 (total_shots table_zero) = Raise ZeroDivisionError /\
  check_accountability_footprint table_zero = Raise ZeroDivisionError /\
  check_accountability_footprint table_zero <> Raise EmptyDistribution.
Proof.
  assert (H : check_accountability_footprint table_zero = Raise ZeroDivisionError)
    by (vm_compute; reflexivity).
  repeat split; try (vm_compute; reflexivity); try discriminate;
    rewrite H; discriminate.
Qed.

(** C10: the ratio and the classification depend on the counts alone.  Two
    tables whose counts are the same up to order, whatever their keys, get
    the same ratio and the same outcome of the check. *)
Theorem footprint_depends_on_counts_only (counts counts' : gmap string Z) :
  Py.values counts ≡ₚ Py.values counts' ->
  footprint_ratio counts = footprint_ratio counts' /\
  check_accountability_footprint counts = check_accountability_footprint counts'.
Proof.
  intros Hperm.
  assert (Hmax : max_count counts = max_count counts')
    by (apply max_permutation, Hperm).
  assert (Hsum : total_shots counts = total_shots counts')
    by (apply sum_permutation, Hperm).
  unfold footprint_ratio, check_accountability_footprint.
  rewrite Hmax, Hsum. split; reflexivity.
Qed.

Lemma footprint_depends_on_counts_only_relabelled :
  footprint_ratio table_1_3 = footprint_ratio table_3_1 /\
  check_accountability_footprint table_1_3
    = check_accountability_footprint table_3_1.
Proof.
  apply (footprint_depends_on_counts_only table_1_3 table_3_1).
  vm_compute. apply perm_swap.
Defined.

(** Renaming the keys by an injective function is such a change. *)
Corollary footprint_kmap (f : string -> string) `{!Inj (=) (=) f}
    (counts : gmap string Z) :
  footprint_ratio (kmap f counts) = footprint_ratio counts /\
  check_accountability_footprint (kmap f counts)
    = check_accountability_footprint counts.
Proof. apply footprint_permutation, values_kmap. done. Qed.

(** Beyond [2 ^ 52] the rounding shows: with maximum [3 * 10 ^ 20 + 1] and
    total [2 * 10 ^ 21] the exact quotient is above 3/20, its float is
    [0.15] itself, and the check answers FRAGMENTED. *)
Example rounding_beyond_2_52 :
  3 * total_shots table_huge < 20 * (3 * 10 ^ 20 + 1) /\
  max_count table_huge = Ok (3 * 10 ^ 20 + 1) /\
  footprint_ratio table_huge = Ok threshold /\
  check_accountability_footprint table_huge = Ok FRAGMENTED.
Proof. repeat split; vm_compute; reflexivity. Qed.

(** With a negative count the quotient can leave the float range. *)
Example overflow_with_negative_count :
  total_shots table_overflow = 1 /\
  check_accountability_footprint table_overflow = Raise OverflowError.
Proof. split; vm_compute; reflexivity. Qed.

(** ** More on the rounded quotient *)

Section RoundedQuotient.

Lemma Zdigits2_lt_pow2 (z k : Z) : 0 <= k -> 0 <= z < 2 ^ k -> Zdigits2 z <= k.
Proof.
  intros Hk [Hz Hlt].
  destruct (Z.eq_dec z 0) as [->|Hne]; [simpl; lia|].
  rewrite Zdigits2_log2 by lia.
  assert (Z.log2 z < k) by (apply Z.log2_lt_pow2; lia). lia.
Qed.

(** Rounding from an exponent and a size that stay below [B] gives zero or
    a float whose exponent is at most [B]. *)
Lemma binary_round_aux_bounded (sx : bool) (mx ex : Z) (lx : location) (B : Z) :
  0 <= mx -> ex <= B -> Zdigits2 mx + ex - 52 <= B -> -1074 <= B <= 971 ->
  binary_round_aux prec emax sx mx ex lx = S754_zero sx \/
  exists m e, binary_round_aux prec emax sx mx ex lx = S754_finite sx m e /\
              e <= B.
Proof.
  intros Hmx Hex HD HB. unfold binary_round_aux, shr_fexp.
  set (n1 := fexp prec emax (Zdigits2 mx + ex) - ex).
  assert (Hr : 0 <= shr_m (shr_record_of_loc mx lx))
    by (by rewrite shr_record_of_loc_m).
  destruct (shr_spec (shr_record_of_loc mx lx) ex n1 Hr) as [Hm1 He1].
  destruct (shr (shr_record_of_loc mx lx) ex n1) as [mrs1 e1].
  cbn [fst snd] in Hm1, He1. rewrite shr_record_of_loc_m in Hm1.
  set (m2 := round_nearest_even (shr_m mrs1) (loc_of_shr_record mrs1)).
  pose proof (round_nearest_even_bounds (shr_m mrs1) (loc_of_shr_record mrs1))
    as Hm2. fold m2 in Hm2.
  assert (Hp1 : 0 < 2 ^ Z.max 0 n1) by (apply Z.pow_pos_nonneg; lia).
  assert (H1 : 0 <= shr_m mrs1) by (rewrite Hm1; apply Z.div_pos; lia).
  set (n2 := fexp prec emax (Zdigits2 m2 + e1) - e1).
  assert (Hr2 : 0 <= shr_m (shr_record_of_loc m2 loc_Exact))
    by (rewrite shr_record_of_loc_m; lia).
  destruct (shr_spec (shr_record_of_loc m2 loc_Exact) e1 n2 Hr2) as [Hm3 He3].
  destruct (shr (shr_record_of_loc m2 loc_Exact) e1 n2) as [mrs3 e3].
  cbn [fst snd] in Hm3, He3. rewrite shr_record_of_loc_m in Hm3.
  assert (H3 : 0 <= shr_m mrs3).
  { rewrite Hm3. apply Z.div_pos; [lia|]. apply Z.pow_pos_nonneg; lia. }
  assert (He3B : e3 <= B).
  { pose proof (Zdigits2_gt mx Hmx) as Hgt.
    pose proof (Zdigits2_nonneg mx) as Hdn.
    pose proof (div_pow2_small mx (Zdigits2 mx) (Z.max 0 n1) Hmx
                  ltac:(lia) Hgt Hdn) as Hsm.
    rewrite <- Hm1 in Hsm.
    assert (Hd2 : Zdigits2 m2 <= Z.max 0 (Zdigits2 mx - Z.max 0 n1) + 1).
    { apply Zdigits2_le_pow2; lia. }
    subst n1 n2. rewrite fexp_binary64 in *. lia. }
  destruct (shr_m mrs3) as [|p|p]; [by left| |lia].
  right. replace (e3 <=? emax - prec) with true; [by eexists _, _|].
  symmetry. apply Z.leb_le. change (emax - prec) with 971. lia.
Qed.

(** A rounded quotient within half a unit of [a / b <= 1] is at most one. *)
Lemma nearest_le_one (a b M : positive) (E : Z) :
  (a <= b)%positive -> E <= 0 -> 2 ^ 52 <= Z.pos M < 2 ^ 53 ->
  (2 * Z.pos M - 1) * Z.pos b <= Z.pos a * 2 ^ (1 - E) ->
  E < -52 \/ (E = -52 /\ M = 4503599627370496%positive).
Proof.
  intros Hab HE HM Hlo.
  destruct (Z_lt_le_dec E (-52)) as [Hlt|Hge]; [by left|right].
  assert (HT : 2 ^ (1 - E) <= 2 ^ 53) by (apply Z.pow_le_mono_r; lia).
  assert (HT0 : 0 < 2 ^ (1 - E)) by (apply Z.pow_pos_nonneg; lia).
  set (T := 2 ^ (1 - E)) in *.
  assert (H1 : (2 * Z.pos M - 1) * Z.pos b <= T * Z.pos b) by nia.
  apply Z.mul_le_mono_pos_r in H1; [|lia].
  assert (HM52 : Z.pos M = 2 ^ 52) by lia.
  split; [|lia].
  destruct (Z.eq_dec E (-52)) as [|Hne]; [done|exfalso].
  assert (HT' : T <= 2 ^ 52) by (apply Z.pow_le_mono_r; lia).
  lia.
Qed.

Lemma SFdiv_self (a : positive) :
  SFdiv prec emax (S754_finite false a 0) (S754_finite false a 0)
  = S754_finite false 4503599627370496 (-52).
Proof.
  destruct (SFdiv_nearest a a ltac:(lia) ltac:(lia))
    as (M & E & -> & HE & HM & Hlo & Hhi).
  destruct (nearest_le_one a a M E ltac:(lia) HE HM Hlo) as [Hlt|[-> ->]];
    [exfalso|done].
  assert (HT : 2 ^ 54 <= 2 ^ (1 - E)) by (apply Z.pow_le_mono_r; lia).
  set (T := 2 ^ (1 - E)) in *.
  assert (H1 : T * Z.pos a <= (2 * Z.pos M + 1) * Z.pos a) by nia.
  apply Z.mul_le_mono_pos_r in H1; lia.
Qed.

(** The quotient of [a <= b] is zero or a positive float at most one. *)
Lemma SFdiv_le_one (a b : positive) :
  (a <= b)%positive ->
  SFdiv prec emax (S754_finite false a 0) (S754_finite false b 0)
    = S754_zero false \/
  exists M E,
    SFdiv prec emax (S754_finite false a 0) (S754_finite false b 0)
      = S754_finite false M E /\
    (E < -52 \/ (E = -52 /\ M = 4503599627370496%positive)).
Proof.
  intros Hab.
  destruct (Z_le_gt_dec (Zdigits2 (Z.pos b) - Zdigits2 (Z.pos a)) 1021)
    as [Hn|Ht].
  - right. destruct (SFdiv_nearest a b Hab Hn) as (M & E & -> & HE & HM & Hlo & _).
    exists M, E. split; [done|]. by apply (nearest_le_one a b).
  - unfold SFdiv, SFdiv_core_binary. cbn [xorb].
    pose proof (Zdigits2_bounds (Z.pos a) ltac:(lia)) as Ha.
    pose proof (Zdigits2_bounds (Z.pos b) ltac:(lia)) as Hb.
    assert (Hda : 1 <= Zdigits2 (Z.pos a)) by (simpl; lia).
    set (d1 := Zdigits2 (Z.pos a)) in *. set (d2 := Zdigits2 (Z.pos b)) in *.
    set (e' := Z.min (fexp prec emax (d1 + 0 - (d2 + 0))) (0 - 0)).
    assert (He' : e' = -1074).
    { subst e'. rewrite fexp_binary64. lia. }
    destruct (0 - 0 - e') as [|s|s] eqn:Hs; [lia| |lia].
    assert (Hsv : Z.pos s = 1074) by lia.
    rewrite Z.shiftl_mul_pow2 by lia.
    destruct (Z.div_eucl (Z.pos a * 2 ^ Z.pos s) (Z.pos b)) as [q r] eqn:Hqr.
    assert (Hq : q = Z.pos a * 2 ^ Z.pos s / Z.pos b).
    { unfold Z.div. by rewrite Hqr. }
    assert (HS : 0 < 2 ^ Z.pos s) by (apply Z.pow_pos_nonneg; lia).
    assert (Hq0 : 0 <= q) by (rewrite Hq; apply Z.div_pos; lia).
    assert (HpB : 0 < 2 ^ (d2 - 1)) by (apply Z.pow_pos_nonneg; lia).
    assert (Hpow : 2 ^ d1 * 2 ^ Z.pos s <= 2 ^ 53 * 2 ^ (d2 - 1)).
    { rewrite <- !Z.pow_add_r by lia. apply Z.pow_le_mono_r; lia. }
    assert (Hq1 : q < 2 ^ 53).
    { rewrite Hq. apply Z.div_lt_upper_bound; [lia|].
      set (S := 2 ^ Z.pos s) in *. set (A := 2 ^ d1) in *.
      set (B := 2 ^ (d2 - 1)) in *. nia. }
    pose proof (Zdigits2_lt_pow2 q 53 ltac:(lia) ltac:(lia)) as Hdq.
    destruct (binary_round_aux_bounded false q e' (new_location (Z.pos b) r)
                (-1073) Hq0 ltac:(lia) ltac:(lia) ltac:(lia))
      as [->|(M & E & -> & HE)]; [by left|right].
    exists M, E. split; [done|]. left. lia.
Qed.

End RoundedQuotient.

(** ** Laws of the footprint check *)

Section FootprintLaws.

Lemma sum_le_length_max (l : list Z) (m : Z) :
  Forall (fun c => c <= m) l -> Py.sum l <= Z.of_nat (length l) * m.
Proof.
  induction 1 as [|c l Hc _ IH]; [done|].
  rewrite sum_cons. cbn [length]. lia.
Qed.

Lemma sum_constant (l : list Z) (c : Z) :
  Forall (fun x => x = c) l -> Py.sum l = Z.of_nat (length l) * c.
Proof.
  induction 1 as [|x l -> _ IH]; [done|].
  rewrite sum_cons. cbn [length]. lia.
Qed.

Lemma sum_scale (k : Z) (l : list Z) : Py.sum (Z.mul k <$> l) = k * Py.sum l.
Proof.
  induction l as [|c l IH]; [cbn; lia|].
  rewrite fmap_cons, !sum_cons, IH. lia.
Qed.

Lemma max_scale (k : Z) (l : list Z) (m : Z) :
  0 < k -> Py.max l = Ok m -> Py.max (Z.mul k <$> l) = Ok (k * m).
Proof.
  intros Hk [Hin Hall]%max_spec. apply max_spec. split.
  - apply list_elem_of_fmap. by exists m.
  - apply Forall_fmap. eapply Forall_impl; [exact Hall|].
    intros c Hc. change (k * c <= k * m).
    apply Z.mul_le_mono_nonneg_l; [lia|exact Hc].
Qed.

Lemma max_cons_below (c : Z) (l : list Z) (m : Z) :
  Py.max l = Ok m -> c <= m -> Py.max (c :: l) = Ok m.
Proof.
  intros [Hin Hall]%max_spec Hc. apply max_spec. split.
  - apply elem_of_cons. by right.
  - by constructor.
Qed.

Lemma values_fmap (f : Z -> Z) (counts : gmap string Z) :
  Py.values (f <$> counts) = f <$> Py.values counts.
Proof.
  unfold Py.values. rewrite map_to_list_fmap, <- !list_fmap_compose.
  apply list_fmap_ext. by intros ? [].
Qed.

Lemma values_length (counts : gmap string Z) :
  length (Py.values counts) = size counts.
Proof. unfold Py.values. by rewrite length_fmap, length_map_to_list. Qed.

(** The check in exact arithmetic, for tables without negative counts and
    with a total of at most [2 ^ 52]. *)
Lemma check_exact (counts : gmap string Z) :
  map_Forall (fun _ c => 0 <= c) counts -> 0 < total_shots counts <= 2 ^ 52 ->
  exists m, max_count counts = Ok m /\ 0 < m <= total_shots counts /\
    check_accountability_footprint counts
    = Ok (if bool_decide (3 * total_shots counts < 20 * m)
          then CONCENTRATED else FRAGMENTED).
Proof.
  intros Hpos [Htot H52].
  assert (Hne : counts <> ∅) by (intros ->; by rewrite total_shots_empty in Htot).
  destruct (max_count_nonempty counts Hne) as (m & Hm & [k Hk] & Hmax).
  assert (Hle : m <= total_shots counts).
  { apply elem_le_sum; [by apply values_Forall|].
    apply elem_of_values. by exists k. }
  assert (Hm0 : 0 < m).
  { pose proof (sum_le_length_max (Py.values counts) m
                  (proj2 (values_Forall _ _) Hmax)) as Hs.
    fold (total_shots counts) in Hs.
    destruct (Z_lt_le_dec 0 m); [done|]. nia. }
  exists m. split; [done|]. split; [lia|].
  destruct (check_unfold counts m Hm) as [-> _].
  destruct (truediv_exact m (total_shots counts) ltac:(lia) ltac:(lia))
    as (q & -> & Hq).
  f_equal. case_bool_decide as Hd.
  - apply Hq in Hd. by rewrite Hd.
  - destruct (Py.gt q threshold) eqn:Hg; [|done].
    exfalso. by apply Hd, Hq.
Qed.

End FootprintLaws.

(** X1: a table without negative counts, with at most six outcomes and a
    positive total of at most [2 ^ 52], is always reported as concentrated:
    its largest count is at least a sixth of the total, above 15%. *)
Theorem few_outcomes_are_concentrated (counts : gmap string Z) :
  map_Forall (fun _ c => 0 <= c) counts ->
  0 < total_shots counts <= 2 ^ 52 ->
  (size counts <= 6)%nat ->
  check_accountability_footprint counts = Ok CONCENTRATED.
Proof.
  intros Hpos Htot Hsize.
  destruct (check_exact counts Hpos Htot) as (m & Hm & Hm0 & ->).
  apply max_spec in Hm as [_ Hall].
  pose proof (sum_le_length_max _ _ Hall) as Hs.
  rewrite values_length in Hs. fold (total_shots counts) in Hs.
  rewrite bool_decide_true; [done|]. nia.
Qed.

Lemma few_outcomes_are_concentrated_five :
  check_accountability_footprint table_five_outcomes = Ok CONCENTRATED.
Proof.
  apply few_outcomes_are_concentrated.
  - apply (bool_decide_unpack _). vm_compute. exact I.
  - vm_compute. split; [reflexivity|discriminate].
  - vm_compute. lia.
Defined.

(** X2: a table whose outcomes all have the same positive count is
    reported as concentrated when it has at most six outcomes and as
    fragmented when it has seven or more (total at most [2 ^ 52]). *)
Theorem uniform_table_threshold (counts : gmap string Z) (c : Z) :
  map_Forall (fun _ x => x = c) counts -> 0 < c -> counts <> ∅ ->
  Z.of_nat (size counts) * c <= 2 ^ 52 ->
  check_accountability_footprint counts
  = Ok (if bool_decide (size counts <= 6)%nat then CONCENTRATED else FRAGMENTED).
Proof.
  intros Hall Hc Hne H52.
  assert (Htot : total_shots counts = Z.of_nat (size counts) * c).
  { unfold total_shots. rewrite <- values_length. apply sum_constant.
    by apply values_Forall. }
  assert (Hsz : (0 < size counts)%nat).
  { destruct (size counts) eqn:Hs; [|lia]. by apply map_size_empty_iff in Hs. }
  destruct (check_exact counts) as (m & Hm & Hm0 & ->).
  { intros k x Hk. rewrite (Hall k x Hk). lia. }
  { rewrite Htot. nia. }
  assert (m = c) as ->.
  { apply max_spec in Hm as [[k Hk]%elem_of_values _]. by apply (Hall k). }
  rewrite Htot. f_equal.
  repeat case_bool_decide; try done; nia.
Qed.

Lemma uniform_table_threshold_eight :
  check_accountability_footprint table_uniform_8 = Ok FRAGMENTED.
Proof.
  apply (uniform_table_threshold table_uniform_8 128).
  - apply (bool_decide_unpack _). vm_compute. exact I.
  - lia.
  - apply (bool_decide_unpack _). vm_compute. exact I.
  - vm_compute. discriminate.
Defined.

(** X3: when one outcome holds all the shots (every other count is zero),
    the ratio is exactly the float [1.0] and the table is reported as
    concentrated, whatever the size of the total. *)
Theorem all_shots_on_one_outcome (counts : gmap string Z) (k : string) :
  map_Forall (fun _ c => 0 <= c) counts ->
  counts !! k = Some (total_shots counts) ->
  0 < total_shots counts ->
  footprint_ratio counts = Ok float_one /\
  check_accountability_footprint counts = Ok CONCENTRATED.
Proof.
  intros Hpos Hk Htot.
  assert (Hm : max_count counts = Ok (total_shots counts)).
  { apply max_spec. split; [apply elem_of_values; by exists k|].
    rewrite Forall_forall. intros c Hc.
    apply elem_le_sum; [by apply values_Forall|done]. }
  destruct (check_unfold counts _ Hm) as [-> ->].
  assert (Hdiv : Py.truediv (total_shots counts) (total_shots counts)
                 = Ok float_one).
  { unfold Py.truediv. destruct (decide (total_shots counts = 0)); [lia|].
    destruct (total_shots counts) as [|t|t]; [lia| |lia].
    cbn [Py.of_int]. by rewrite SFdiv_self. }
  rewrite Hdiv. split; reflexivity.
Qed.

Lemma all_shots_on_one_outcome_1024 :
  footprint_ratio table_all_on_one = Ok float_one /\
  check_accountability_footprint table_all_on_one = Ok CONCENTRATED.
Proof.
  apply (all_shots_on_one_outcome table_all_on_one "00").
  - apply (bool_decide_unpack _). vm_compute. exact I.
  - vm_compute. reflexivity.
  - vm_compute. reflexivity.
Defined.

(** X4: for a table without negative counts and with a positive total, the
    ratio is a float between [0.0] and [1.0]. *)
Theorem ratio_between_zero_and_one (counts : gmap string Z) :
  map_Forall (fun _ c => 0 <= c) counts ->
  0 < total_shots counts ->
  exists ratio, footprint_ratio counts = Ok ratio /\
    SFleb float_zero ratio = true /\ SFleb ratio float_one = true.
Proof.
  intros Hpos Htot.
  assert (Hne : counts <> ∅) by (intros ->; by rewrite total_shots_empty in Htot).
  destruct (max_count_nonempty counts Hne) as (m & Hm & [k Hk] & Hmax).
  assert (Hrange : 0 <= m <= total_shots counts).
  { split; [by apply (Hpos k)|].
    apply elem_le_sum; [by apply values_Forall|].
    apply elem_of_values. by exists k. }
  destruct (check_unfold counts m Hm) as [_ ->].
  unfold Py.truediv. destruct (decide (total_shots counts = 0)); [lia|].
  destruct (total_shots counts) as [|t|t]; [lia| |lia].
  destruct m as [|a|a]; [by eexists| |lia].
  cbn [Py.of_int].
  destruct (SFdiv_le_one a t ltac:(lia)) as [->|(M & E & -> & HME)];
    [by eexists|].
  eexists. split; [reflexivity|]. split; [reflexivity|].
  unfold SFleb, SFcompare, float_one.
  destruct HME as [Hlt|[-> ->]].
  - apply Z.compare_lt_iff in Hlt. by rewrite Hlt.
  - reflexivity.
Qed.

Lemma ratio_between_zero_and_one_two_halves :
  exists ratio, footprint_ratio table_two_halves = Ok ratio /\
    SFleb float_zero ratio = true /\ SFleb ratio float_one = true.
Proof.
  apply ratio_between_zero_and_one.
  - apply (bool_decide_unpack _). vm_compute. exact I.
  - vm_compute. reflexivity.
Defined.

(** X5: an outcome that was never observed does not count.  Adding an entry
    with count zero under a new key, to a table that holds a count that is
    not negative, changes neither the ratio nor the outcome of the check. *)
Theorem zero_count_entry_is_ignored (counts : gmap string Z) (k : string) :
  counts !! k = None ->
  (exists k' c, counts !! k' = Some c /\ 0 <= c) ->
  footprint_ratio (<[k:=0]> counts) = footprint_ratio counts /\
  check_accountability_footprint (<[k:=0]> counts)
    = check_accountability_footprint counts.
Proof.
  intros Hk (k' & c & Hk' & Hc).
  assert (Hne : counts <> ∅) by (intros ->; by rewrite lookup_empty in Hk').
  destruct (max_count_nonempty counts Hne) as (m & Hm & _ & Hmax).
  assert (Hm0 : 0 <= m) by (specialize (Hmax k' c Hk'); cbn in Hmax; lia).
  pose proof (values_insert counts k 0 Hk) as Hperm.
  assert (Hmax' : max_count (<[k:=0]> counts) = max_count counts).
  { unfold max_count in *. rewrite (max_permutation _ _ Hperm), Hm.
    by apply max_cons_below. }
  assert (Hsum' : total_shots (<[k:=0]> counts) = total_shots counts).
  { rewrite total_shots_insert by done. lia. }
  unfold footprint_ratio, check_accountability_footprint.
  rewrite Hmax', Hsum'. split; reflexivity.
Qed.

Lemma zero_count_entry_is_ignored_two_halves :
  footprint_ratio (<["11"%string:=0]> table_two_halves)
    = footprint_ratio table_two_halves /\
  check_accountability_footprint (<["11"%string:=0]> table_two_halves)
    = check_accountability_footprint table_two_halves.
Proof.
  apply zero_count_entry_is_ignored.
  - vm_compute. reflexivity.
  - exists "00"%string, 512. split; [vm_compute; reflexivity|lia].
Defined.

(** X6: the outcome depends on the proportions only.  Multiplying every
    count of a table without negative counts by the same positive factor
    leaves the outcome of the check as it is, as long as the larger total
    stays within [2 ^ 52]. *)
Theorem scaling_keeps_the_outcome (counts : gmap string Z) (k : Z) :
  0 < k ->
  map_Forall (fun _ c => 0 <= c) counts ->
  0 < total_shots counts ->
  k * total_shots counts <= 2 ^ 52 ->
  check_accountability_footprint (Z.mul k <$> counts)
  = check_accountability_footprint counts.
Proof.
  intros Hk Hpos Htot H52.
  assert (Hsum : total_shots (Z.mul k <$> counts) = k * total_shots counts).
  { unfold total_shots. by rewrite values_fmap, sum_scale. }
  destruct (check_exact counts Hpos ltac:(nia)) as (m & Hm & Hm0 & ->).
  destruct (check_exact (Z.mul k <$> counts)) as (m' & Hm' & _ & ->).
  { intros i c. rewrite lookup_fmap. intros [c' [Hc' ->]]%fmap_Some.
    specialize (Hpos i c' Hc'). cbn in Hpos. nia. }
  { rewrite Hsum. nia. }
  assert (m' = k * m) as ->.
  { unfold max_count in Hm'. rewrite values_fmap in Hm'.
    rewrite (max_scale k _ m Hk Hm) in Hm'. by injection Hm'. }
  rewrite Hsum. f_equal. repeat case_bool_decide; try done; nia.
Qed.

Lemma scaling_keeps_the_outcome_four :
  check_accountability_footprint (Z.mul 4 <$> table_uniform_8)
  = check_accountability_footprint table_uniform_8.
Proof.
  apply scaling_keeps_the_outcome.
  - lia.
  - apply (bool_decide_unpack _). vm_compute. exact I.
  - vm_compute. reflexivity.
  - vm_compute. discriminate.
Defined.

(** X7: with the total unchanged, a larger dominant count never turns a
    concentrated table into a fragmented one. *)
Theorem more_dominance_stays_concentrated
    (counts counts' : gmap string Z) (m m' : Z) :
  map_Forall (fun _ c => 0 <= c) counts ->
  map_Forall (fun _ c => 0 <= c) counts' ->
  total_shots counts' = total_shots counts ->
  0 < total_shots counts <= 2 ^ 52 ->
  max_count counts = Ok m -> max_count counts' = Ok m' -> m <= m' ->
  check_accountability_footprint counts = Ok CONCENTRATED ->
  check_accountability_footprint counts' = Ok CONCENTRATED.
Proof.
  intros Hpos Hpos' Heq Htot Hm Hm' Hle.
  destruct (check_exact counts Hpos Htot) as (m1 & Hm1 & _ & ->).
  destruct (check_exact counts' Hpos' ltac:(lia)) as (m2 & Hm2 & _ & ->).
  rewrite Hm in Hm1. injection Hm1 as <-.
  rewrite Hm' in Hm2. injection Hm2 as <-.
  rewrite Heq. repeat case_bool_decide; try done. lia.
Qed.

Lemma more_dominance_stays_concentrated_154_160 :
  check_accountability_footprint table_160 = Ok CONCENTRATED.
Proof.
  apply (more_dominance_stays_concentrated table_154 table_160 154 160).
  - apply (bool_decide_unpack _). vm_compute. exact I.
  - apply (bool_decide_unpack _). vm_compute. exact I.
  - vm_compute. reflexivity.
  - vm_compute. split; [reflexivity|discriminate].
  - vm_compute. reflexivity.
  - vm_compute. reflexivity.
  - lia.
  - vm_compute. reflexivity.
Defined.

(** X13: at the 1024 shots the module runs, the check reports a table as
    concentrated exactly when some outcome was observed at least 154
    times, and as fragmented when none was observed more than 153 times. *)
Theorem flux_at_1024_shots (counts : gmap string Z) (m : Z) :
  map_Forall (fun _ c => 0 <= c) counts ->
  total_shots counts = 1024 ->
  max_count counts = Ok m ->
  (check_accountability_footprint counts = Ok CONCENTRATED <-> 154 <= m) /\
  (check_accountability_footprint counts = Ok FRAGMENTED <-> m <= 153).
Proof.
  intros Hpos Htot Hm.
  destruct (check_exact counts Hpos) as (m' & Hm' & _ & ->).
  { rewrite Htot. split; [lia|]. change 1024 with (2 ^ 10).
    apply Z.pow_le_mono_r; lia. }
  rewrite Hm in Hm'. injection Hm' as <-. rewrite Htot.
  case_bool_decide; split; split; try done; try discriminate; lia.
Qed.

Lemma flux_at_1024_shots_154 :
  (check_accountability_footprint table_154 = Ok CONCENTRATED <-> 154 <= 154) /\
  (check_accountability_footprint table_154 = Ok FRAGMENTED <-> 154 <= 153).
Proof.
  apply flux_at_1024_shots.
  - apply (bool_decide_unpack _). vm_compute. exact I.
  - vm_compute. reflexivity.
  - vm_compute. reflexivity.
Defined.


(** ** The circuit construction *)

(* The angles stay folded while the sequence is taken apart. *)
#[local] Opaque PHI MASS_CONSTANT PNEUMATIC_DENSITY
  Float64.mul Float64.div Float64.sqrt Float64.of_int.

Section Calls.

Lemma qubit_index (n : Z) (nm : string) (d : list instruction) (i : Z) :
  0 <= i < n -> QuantumCircuit.qubit (QuantumCircuit.Build n nm d) i = Ok i.
Proof.
  intros Hi. unfold QuantumCircuit.qubit. cbn [QuantumCircuit.num_qubits].
  by rewrite decide_True.
Qed.

Lemma qubit_beyond (n : Z) (nm : string) (d : list instruction) (i : Z) :
  0 <= i -> n <= i ->
  QuantumCircuit.qubit (QuantumCircuit.Build n nm d) i
  = Raise (CircuitError (IndexOutOfRange i n)).
Proof.
  intros H0 Hi. unfold QuantumCircuit.qubit. cbn [QuantumCircuit.num_qubits].
  rewrite !decide_False by lia. done.
Qed.

Lemma qubit_in_circuit (qc : QuantumCircuit.t) (i q : Z) :
  QuantumCircuit.qubit qc i = Ok q -> 0 <= q < QuantumCircuit.num_qubits qc.
Proof.
  unfold QuantumCircuit.qubit. cbv zeta.
  repeat case_decide; intros [= <-]; lia.
Qed.

Lemma qubit_error (qc : QuantumCircuit.t) (i : Z) (e : exn) :
  QuantumCircuit.qubit qc i = Raise e -> call_error e.
Proof.
  unfold QuantumCircuit.qubit. cbv zeta.
  repeat case_decide; intros [= <-]. right. by eexists.
Qed.

Lemma gate1_appends (g : Z -> instruction) (q n : Z) (nm : string)
    (d : list instruction) :
  0 <= q < n ->
  QuantumCircuit.gate1 g q (QuantumCircuit.Build n nm d)
  = Ok (QuantumCircuit.Build n nm (d ++ [g q])).
Proof. intros Hq. unfold QuantumCircuit.gate1. by rewrite qubit_index. Qed.

Lemma gate1_beyond (g : Z -> instruction) (q n : Z) (nm : string)
    (d : list instruction) :
  0 <= q -> n <= q ->
  QuantumCircuit.gate1 g q (QuantumCircuit.Build n nm d)
  = Raise (CircuitError (IndexOutOfRange q n)).
Proof. intros H0 Hq. unfold QuantumCircuit.gate1. by rewrite qubit_beyond. Qed.

Lemma gate2_appends (g : Z -> Z -> instruction) (a b n : Z) (nm : string)
    (d : list instruction) :
  0 <= a < n -> 0 <= b < n -> a <> b ->
  QuantumCircuit.gate2 g a b (QuantumCircuit.Build n nm d)
  = Ok (QuantumCircuit.Build n nm (d ++ [g a b])).
Proof.
  intros Ha Hb Hab. unfold QuantumCircuit.gate2.
  rewrite (qubit_index _ _ _ a), (qubit_index _ _ _ b) by done.
  cbn. by rewrite decide_False.
Qed.

Lemma gate2_beyond (g : Z -> Z -> instruction) (a b n : Z) (nm : string)
    (d : list instruction) :
  0 <= a < n -> 0 <= b -> n <= b ->
  QuantumCircuit.gate2 g a b (QuantumCircuit.Build n nm d)
  = Raise (CircuitError (IndexOutOfRange b n)).
Proof.
  intros Ha H0 Hb. unfold QuantumCircuit.gate2.
  rewrite (qubit_index _ _ _ a), (qubit_beyond _ _ _ b) by done. done.
Qed.

Lemma gate2_twice (g : Z -> Z -> instruction) (a b n : Z) (nm : string)
    (d : list instruction) :
  0 <= a < n -> a = b ->
  QuantumCircuit.gate2 g a b (QuantumCircuit.Build n nm d)
  = Raise (CircuitError DuplicateQubitArguments).
Proof.
  intros Ha <-. unfold QuantumCircuit.gate2.
  rewrite qubit_index by done. cbn. by rewrite decide_True.
Qed.

Lemma mapM_qubit_index (n : Z) (nm : string) (d : list instruction) (qs : list Z) :
  Forall (fun q => 0 <= q < n) qs ->
  mapM (QuantumCircuit.qubit (QuantumCircuit.Build n nm d)) qs = Ok qs.
Proof.
  induction 1 as [|q qs Hq _ IH]; [done|].
  cbn [mapM]. rewrite qubit_index by done. cbn. by rewrite IH.
Qed.

Lemma foldl_push_H (qs : list Z) (n : Z) (nm : string) (d : list instruction) :
  foldl (fun c q => QuantumCircuit.push (HGate q) c) (QuantumCircuit.Build n nm d) qs
  = QuantumCircuit.Build n nm (d ++ (HGate <$> qs)).
Proof.
  revert d. induction qs as [|q qs IH]; intros d; cbn.
  - by rewrite app_nil_r.
  - unfold QuantumCircuit.push at 2. cbn. rewrite IH. by rewrite <- app_assoc.
Qed.

Lemma h_appends (qs : list Z) (n : Z) (nm : string) (d : list instruction) :
  qs <> [] -> Forall (fun q => 0 <= q < n) qs ->
  QuantumCircuit.h qs (QuantumCircuit.Build n nm d)
  = Ok (QuantumCircuit.Build n nm (d ++ (HGate <$> qs))).
Proof.
  intros Hne Hqs. unfold QuantumCircuit.h.
  rewrite mapM_qubit_index by done. cbn.
  rewrite decide_False by done. by rewrite foldl_push_H.
Qed.

Lemma h_empty (qc : QuantumCircuit.t) :
  QuantumCircuit.h [] qc = Raise (CircuitError EmptyArguments).
Proof. reflexivity. Qed.

Lemma range_empty (a b : Z) : b <= a -> range a b = [].
Proof.
  intros H. unfold range, seqZ. replace (Z.to_nat (b - a)) with 0%nat by lia. done.
Qed.

Lemma range_not_empty (a b : Z) : a < b -> range a b <> [].
Proof.
  intros H Heq. apply (f_equal length) in Heq.
  unfold range in Heq. rewrite length_seqZ in Heq. cbn in Heq. lia.
Qed.

Lemma range_in_circuit (a b n : Z) :
  0 <= a -> b <= n -> Forall (fun q => 0 <= q < n) (range a b).
Proof. intros Ha Hb. unfold range. apply Forall_seqZ. intros q Hq. lia. Qed.

Lemma barrier_appends (l : option string) (n : Z) (nm : string)
    (d : list instruction) :
  QuantumCircuit.barrier l (QuantumCircuit.Build n nm d)
  = Ok (QuantumCircuit.Build n nm (d ++ [Barrier l])).
Proof. reflexivity. Qed.

Lemma str_small (z : Z) :
  Z.abs z < 10 ^ Py.int_max_str_digits -> Py.str z = Ok (pretty z).
Proof. intros Hz. unfold Py.str. by rewrite decide_True. Qed.

Lemma str_large (z : Z) :
  10 ^ Py.int_max_str_digits <= Z.abs z -> Py.str z = Raise ValueError.
Proof.
  intros Hz. unfold Py.str. rewrite decide_False; [done|].
  intros H. apply (Z.lt_irrefl (Z.abs z)). eapply Z.lt_le_trans; [exact H|exact Hz].
Qed.

Lemma str_1 : Py.str 1 = Ok "1"%string.
Proof. vm_compute. reflexivity. Qed.

(** Stepping through a program. *)

Lemma then_next {A : Type} (method : QuantumCircuit.t -> result QuantumCircuit.t)
    (k : unit -> program A) (qc qc' : QuantumCircuit.t) :
  method qc = Ok qc' -> (call method ≫= k) qc = k () qc'.
Proof. intros H. unfold mbind, program_bind, call. by rewrite H. Qed.

Lemma then_stop {A : Type} (method : QuantumCircuit.t -> result QuantumCircuit.t)
    (k : unit -> program A) (qc : QuantumCircuit.t) (e : exn) :
  method qc = Raise e -> (call method ≫= k) qc = (qc, Raise e).
Proof. intros H. unfold mbind, program_bind, call. by rewrite H. Qed.

Lemma last_next (method : QuantumCircuit.t -> result QuantumCircuit.t)
    (qc qc' : QuantumCircuit.t) :
  method qc = Ok qc' -> call method qc = (qc', Ok ()).
Proof. intros H. unfold call. by rewrite H. Qed.

Lemma eval_next {A B : Type} (r : result A) (a : A) (k : A -> program B)
    (qc : QuantumCircuit.t) :
  r = Ok a -> (eval r ≫= k) qc = k a qc.
Proof. by intros ->. Qed.

Lemma eval_stop {A B : Type} (r : result A) (e : exn) (k : A -> program B)
    (qc : QuantumCircuit.t) :
  r = Raise e -> (eval r ≫= k) qc = (qc, Raise e).
Proof. by intros ->. Qed.

Lemma seq_next {A B : Type} (m : program A) (k : A -> program B)
    (qc qc' : QuantumCircuit.t) (a : A) :
  m qc = (qc', Ok a) -> (m ≫= k) qc = k a qc'.
Proof. intros H. unfold mbind, program_bind. by rewrite H. Qed.

Lemma seq_stop {A B : Type} (m : program A) (k : A -> program B)
    (qc qc' : QuantumCircuit.t) (e : exn) :
  m qc = (qc', Raise e) -> (m ≫= k) qc = (qc', Raise e).
Proof. intros H. unfold mbind, program_bind. by rewrite H. Qed.

End Calls.

Ltac offsets :=
  unfold TOTAL_QUBITS, V_START, R_START, E_START, P_START in *; lia.

(* One call that goes through. *)
Ltac call_appends :=
  first
    [ apply gate2_appends; offsets
    | apply gate1_appends; offsets
    | apply barrier_appends
    | apply h_appends;
      [ apply range_not_empty; offsets | apply range_in_circuit; offsets ] ].

Ltac next :=
  first [ erewrite then_next by call_appends
        | erewrite last_next by call_appends ];
  cbv beta.

(* One call that is refused. *)
Ltac call_refused :=
  first
    [ apply gate2_beyond; offsets
    | apply gate2_twice; offsets
    | apply gate1_beyond; offsets ].

Ltac stop := erewrite then_stop by call_refused.


Section Construction.

Lemma state_preparation_appends (w : widths) (n : Z) (nm : string)
    (d : list instruction) :
  1 <= PHASE_QUBITS w -> 1 <= EXISTENCE_QUBITS w ->
  0 <= RESOURCE_QUBITS w -> 0 <= TPP_VALUE_QUBITS w ->
  2 <= RESOURCE_QUBITS w + TPP_VALUE_QUBITS w ->
  TOTAL_QUBITS w <= n ->
  state_preparation w (QuantumCircuit.Build n nm d)
  = (QuantumCircuit.Build n nm (d ++ preparation_sequence w), Ok ()).
Proof.
  intros HP HE HR HV HRV Hn. unfold state_preparation.
  unfold QuantumCircuit.cx, QuantumCircuit.p, QuantumCircuit.crz.
  do 12 next.
  f_equal. f_equal. unfold preparation_sequence, stage_superposition, Phase.
  repeat rewrite <- app_assoc. reflexivity.
Qed.

Lemma birth_proclamation_appends (w : widths) (e n : Z) (nm : string)
    (d : list instruction) :
  0 <= E_START w < V_START w -> V_START w + 1 < n ->
  Z.abs e < 10 ^ Py.int_max_str_digits ->
  birth_proclamation_circuit w e (QuantumCircuit.Build n nm d)
  = (QuantumCircuit.Build n nm (d ++ proclamation_block w (pretty e)), Ok ()).
Proof.
  intros HE HV He. unfold birth_proclamation_circuit. cbv zeta.
  unfold QuantumCircuit.cx, QuantumCircuit.x, QuantumCircuit.rx, QuantumCircuit.rz.
  erewrite then_next by (apply gate1_appends; lia). cbv beta.
  erewrite eval_next by (apply str_small; exact He). cbv beta.
  erewrite then_next by apply barrier_appends. cbv beta.
  erewrite then_next by (apply gate2_appends; lia). cbv beta.
  erewrite then_next by (apply gate2_appends; lia). cbv beta.
  erewrite then_next by (apply gate1_appends; lia). cbv beta.
  erewrite then_next by (apply gate1_appends; lia). cbv beta.
  erewrite last_next by apply barrier_appends.
  f_equal. f_equal. unfold proclamation_block, stage_proclamation_flip,
    stage_proclamation_rest.
  repeat rewrite <- app_assoc. reflexivity.
Qed.

Lemma birth_proclamation_refused (w : widths) (e n : Z) (nm : string)
    (d : list instruction) :
  0 <= V_START w + 1 -> n <= V_START w + 1 ->
  birth_proclamation_circuit w e (QuantumCircuit.Build n nm d)
  = (QuantumCircuit.Build n nm d,
     Raise (CircuitError (IndexOutOfRange (V_START w + 1) n))).
Proof.
  intros H0 Hn. unfold birth_proclamation_circuit, QuantumCircuit.x.
  erewrite then_stop by (apply gate1_beyond; lia). reflexivity.
Qed.

Lemma birth_proclamation_large (w : widths) (e n : Z) (nm : string)
    (d : list instruction) :
  0 <= V_START w + 1 < n ->
  10 ^ Py.int_max_str_digits <= Z.abs e ->
  birth_proclamation_circuit w e (QuantumCircuit.Build n nm d)
  = (QuantumCircuit.Build n nm (d ++ [XGate (V_START w + 1)]), Raise ValueError).
Proof.
  intros HV He. unfold birth_proclamation_circuit, QuantumCircuit.x.
  erewrite then_next by (apply gate1_appends; lia). cbv beta.
  erewrite eval_stop by (apply str_large; exact He). reflexivity.
Qed.

Lemma apply_trade_barter_raises (w : widths) (qc : QuantumCircuit.t) :
  apply_trade_barter w qc = (qc, Raise TypeError).
Proof. reflexivity. Qed.

Lemma pretty_1 : pretty 1 = "1"%string.
Proof. reflexivity. Qed.

Lemma run_on_new (w : widths) (m : program unit) :
  0 <= TOTAL_QUBITS w ->
  run w m
  = match m (QuantumCircuit.Build (TOTAL_QUBITS w) "Equaddle_Nights_Landing_Final" []) with
    | (qc', Ok _) => Completed qc'
    | (qc', Raise e) => Stopped qc' e
    end.
Proof.
  intros Hn. unfold run, QuantumCircuit.new. by rewrite decide_False by lia.
Qed.

Lemma run_no_circuit (w : widths) (m : program unit) :
  TOTAL_QUBITS w < 0 ->
  run w m = NoCircuit (CircuitError (NegativeRegisterSize (TOTAL_QUBITS w))).
Proof.
  intros Hn. unfold run, QuantumCircuit.new. by rewrite decide_True by lia.
Qed.

(** The circuit of the finished state preparation and proclamation. *)
Lemma through_proclamation_completed (w : widths) :
  1 <= PHASE_QUBITS w -> 1 <= EXISTENCE_QUBITS w ->
  0 <= RESOURCE_QUBITS w -> 2 <= TPP_VALUE_QUBITS w ->
  through_proclamation w
  = Completed (QuantumCircuit.Build (TOTAL_QUBITS w) "Equaddle_Nights_Landing_Final"
                 (operation_sequence w)).
Proof.
  intros HP HE HR HV. unfold through_proclamation.
  rewrite run_on_new by offsets.
  erewrite seq_next by (apply state_preparation_appends; offsets). cbv beta.
  rewrite birth_proclamation_appends; [| offsets | offsets | by vm_compute].
  by rewrite pretty_1.
Qed.

(** With the exchange, the run stops there. *)
Lemma construction_stopped (w : widths) :
  1 <= PHASE_QUBITS w -> 1 <= EXISTENCE_QUBITS w ->
  0 <= RESOURCE_QUBITS w -> 2 <= TPP_VALUE_QUBITS w ->
  Equaddle_Nights_Landing_Final w
  = Stopped (QuantumCircuit.Build (TOTAL_QUBITS w) "Equaddle_Nights_Landing_Final"
               (operation_sequence w)) TypeError.
Proof.
  intros HP HE HR HV. unfold Equaddle_Nights_Landing_Final.
  rewrite run_on_new by offsets.
  erewrite seq_next by (apply state_preparation_appends; offsets). cbv beta.
  erewrite seq_next
    by (apply birth_proclamation_appends; [offsets | offsets | by vm_compute]).
  cbv beta. rewrite apply_trade_barter_raises. by rewrite pretty_1.
Qed.

Lemma run_stopped_early (w : widths) (m k : program unit)
    (qc : QuantumCircuit.t) (e : exn) :
  0 <= TOTAL_QUBITS w ->
  m (QuantumCircuit.Build (TOTAL_QUBITS w) "Equaddle_Nights_Landing_Final" [])
  = (qc, Raise e) ->
  run w (m ;; k) = Stopped qc e.
Proof.
  intros Hn Hm. rewrite run_on_new by done. by erewrite seq_stop by exact Hm.
Qed.

(** How the state preparation ends on a circuit of [TOTAL_QUBITS] qubits,
    by the widths. *)
Lemma state_preparation_ending (w : widths) (nm : string) :
  0 <= PHASE_QUBITS w -> 0 <= EXISTENCE_QUBITS w ->
  0 <= RESOURCE_QUBITS w -> 0 <= TPP_VALUE_QUBITS w ->
  let n := TOTAL_QUBITS w in
  let ending := state_preparation w (QuantumCircuit.Build n nm []) in
  (PHASE_QUBITS w = 0 /\
   exists qc, ending = (qc, Raise (CircuitError EmptyArguments))) \/
  (1 <= PHASE_QUBITS w /\ EXISTENCE_QUBITS w = 0 /\
   2 <= RESOURCE_QUBITS w + TPP_VALUE_QUBITS w /\
   exists qc, ending = (qc, Raise (CircuitError DuplicateQubitArguments))) \/
  (1 <= PHASE_QUBITS w /\
   RESOURCE_QUBITS w + TPP_VALUE_QUBITS w <= 1 /\
   exists qc i, n <= i /\ ending = (qc, Raise (CircuitError (IndexOutOfRange i n)))) \/
  (1 <= PHASE_QUBITS w /\ 1 <= EXISTENCE_QUBITS w /\
   2 <= RESOURCE_QUBITS w + TPP_VALUE_QUBITS w /\
   ending = (QuantumCircuit.Build n nm (preparation_sequence w), Ok ())).
Proof.
  intros HP HE HR HV n ending. subst n ending.
  destruct (decide (PHASE_QUBITS w = 0)) as [HP0|HP0].
  { left. split; [done|]. eexists. unfold state_preparation.
    rewrite range_empty by offsets. by erewrite then_stop by apply h_empty. }
  right.
  destruct (decide (RESOURCE_QUBITS w + TPP_VALUE_QUBITS w <= 1)) as [HRV|HRV].
  { right. left. split; [lia|]. split; [done|].
    unfold state_preparation, QuantumCircuit.cx.
    destruct (decide (EXISTENCE_QUBITS w + RESOURCE_QUBITS w + TPP_VALUE_QUBITS w = 0)).
    { do 2 eexists. split; [|do 2 next; stop; reflexivity]. offsets. }
    destruct (decide (EXISTENCE_QUBITS w + RESOURCE_QUBITS w + TPP_VALUE_QUBITS w = 1)).
    { do 2 eexists. split; [|do 3 next; stop; reflexivity]. offsets. }
    destruct (decide (RESOURCE_QUBITS w + TPP_VALUE_QUBITS w = 0)).
    { do 2 eexists. split; [|do 5 next; stop; reflexivity]. offsets. }
    do 2 eexists. split; [|do 6 next; stop; reflexivity]. offsets. }
  destruct (decide (EXISTENCE_QUBITS w = 0)) as [HE0|HE0].
  { left. split; [lia|]. split; [done|]. split; [lia|].
    eexists. unfold state_preparation, QuantumCircuit.cx.
    do 5 next. stop. reflexivity. }
  right. right. split; [lia|]. split; [lia|]. split; [lia|].
  by rewrite state_preparation_appends by offsets.
Qed.

(** How the construction ends, by the widths: the state preparation and
    the proclamation alone, and with the exchange. *)
Lemma ending_by_widths (w : widths) :
  0 <= PHASE_QUBITS w -> 0 <= EXISTENCE_QUBITS w ->
  0 <= RESOURCE_QUBITS w -> 0 <= TPP_VALUE_QUBITS w ->
  (PHASE_QUBITS w = 0 /\
   exists qc, through_proclamation w = Stopped qc (CircuitError EmptyArguments) /\
     Equaddle_Nights_Landing_Final w = Stopped qc (CircuitError EmptyArguments)) \/
  (1 <= PHASE_QUBITS w /\ EXISTENCE_QUBITS w = 0 /\
   2 <= RESOURCE_QUBITS w + TPP_VALUE_QUBITS w /\
   exists qc,
     through_proclamation w = Stopped qc (CircuitError DuplicateQubitArguments) /\
     Equaddle_Nights_Landing_Final w
     = Stopped qc (CircuitError DuplicateQubitArguments)) \/
  (1 <= PHASE_QUBITS w /\
   (EXISTENCE_QUBITS w = 0 /\ RESOURCE_QUBITS w + TPP_VALUE_QUBITS w <= 1 \/
    1 <= EXISTENCE_QUBITS w /\ TPP_VALUE_QUBITS w <= 1) /\
   exists qc i, TOTAL_QUBITS w <= i /\
     through_proclamation w
     = Stopped qc (CircuitError (IndexOutOfRange i (TOTAL_QUBITS w))) /\
     Equaddle_Nights_Landing_Final w
     = Stopped qc (CircuitError (IndexOutOfRange i (TOTAL_QUBITS w)))) \/
  (1 <= PHASE_QUBITS w /\ 1 <= EXISTENCE_QUBITS w /\ 2 <= TPP_VALUE_QUBITS w /\
   through_proclamation w
   = Completed (QuantumCircuit.Build (TOTAL_QUBITS w) "Equaddle_Nights_Landing_Final"
                  (operation_sequence w)) /\
   Equaddle_Nights_Landing_Final w
   = Stopped (QuantumCircuit.Build (TOTAL_QUBITS w) "Equaddle_Nights_Landing_Final"
                (operation_sequence w)) TypeError).
Proof.
  intros HP HE HR HV.
  assert (Hn : 0 <= TOTAL_QUBITS w) by offsets.
  destruct (state_preparation_ending w "Equaddle_Nights_Landing_Final" HP HE HR HV)
    as [(H0 & qc & Hs)|[(H1 & H0 & H2 & qc & Hs)|[(H1 & H2 & qc & i & Hi & Hs)
       |(H1 & H2 & H3 & Hs)]]].
  - left. split; [done|]. exists qc.
    unfold through_proclamation, Equaddle_Nights_Landing_Final.
    split; by apply run_stopped_early.
  - right. left. split; [done|]. split; [done|]. split; [done|]. exists qc.
    unfold through_proclamation, Equaddle_Nights_Landing_Final.
    split; by apply run_stopped_early.
  - right. right. left. split; [done|]. split; [lia|]. exists qc, i.
    split; [done|].
    unfold through_proclamation, Equaddle_Nights_Landing_Final.
    split; by apply run_stopped_early.
  - destruct (decide (2 <= TPP_VALUE_QUBITS w)) as [HV2|HV2].
    { right. right. right. split; [done|]. split; [done|]. split; [done|].
      split; [by apply through_proclamation_completed
             |by apply construction_stopped]. }
    right. right. left. split; [done|]. split; [lia|].
    exists (QuantumCircuit.Build (TOTAL_QUBITS w) "Equaddle_Nights_Landing_Final"
              (preparation_sequence w)), (V_START w + 1).
    split; [offsets|].
    unfold through_proclamation, Equaddle_Nights_Landing_Final.
    rewrite !run_on_new by done.
    erewrite !seq_next by exact Hs. cbv beta.
    rewrite birth_proclamation_refused by offsets. split; [done|].
    by erewrite seq_stop by (apply birth_proclamation_refused; offsets).
Qed.

End Construction.

Section Invariant.

Lemma well_formed_push (i : instruction) (qc : QuantumCircuit.t) :
  well_formed qc -> NoDup (qubits i) ->
  Forall (fun q => 0 <= q < QuantumCircuit.num_qubits qc) (qubits i) ->
  well_formed (QuantumCircuit.push i qc).
Proof.
  intros Hqc Hd Hr. unfold well_formed, QuantumCircuit.push. cbn.
  apply Forall_app. split; [exact Hqc|]. by apply Forall_singleton.
Qed.

Lemma keeps_call (method : QuantumCircuit.t -> result QuantumCircuit.t) :
  (forall qc qc', well_formed qc -> method qc = Ok qc' ->
     well_formed qc' /\
     QuantumCircuit.num_qubits qc' = QuantumCircuit.num_qubits qc /\
     QuantumCircuit.name qc' = QuantumCircuit.name qc) ->
  (forall qc e, method qc = Raise e -> call_error e) ->
  keeps_to_circuit (call method).
Proof.
  intros Hok Hraise qc Hqc. unfold call.
  destruct (method qc) as [qc'|e] eqn:Hm; cbn.
  - destruct (Hok qc qc' Hqc Hm) as (? & ? & ?). by repeat split.
  - repeat split; try done. intros e' [= <-]. by eapply Hraise.
Qed.

Lemma keeps_bind {A B : Type} (m : program A) (k : A -> program B) :
  keeps_to_circuit m -> (forall a, keeps_to_circuit (k a)) ->
  keeps_to_circuit (m ≫= k).
Proof.
  intros Hm Hk qc Hqc. unfold mbind, program_bind.
  destruct (Hm qc Hqc) as (Hwf & Hn & Hnm & He).
  destruct (m qc) as [qc' [a|e]]; cbn in *.
  - destruct (Hk a qc' Hwf) as (? & Hn' & Hnm' & ?).
    rewrite Hn', Hnm'. by repeat split.
  - split; [done|]. split; [done|]. split; [done|].
    intros e' [= <-]. by apply He.
Qed.

Lemma keeps_eval {A : Type} (a : A) : keeps_to_circuit (eval (Ok a)).
Proof. intros qc Hqc. cbn. by repeat split. Qed.

Lemma keeps_gate1 (g : Z -> instruction) (q : Z) :
  (forall q', qubits (g q') = [q']) ->
  keeps_to_circuit (call (QuantumCircuit.gate1 g q)).
Proof.
  intros Hg. apply keeps_call; unfold QuantumCircuit.gate1.
  - intros qc qc' Hqc.
    destruct (QuantumCircuit.qubit qc q) as [q'|e] eqn:Hq; cbn; [|done].
    intros [= <-]. split; [|done].
    apply qubit_in_circuit in Hq.
    apply well_formed_push; [done|..]; rewrite Hg.
    + apply NoDup_singleton.
    + by apply Forall_singleton.
  - intros qc e.
    destruct (QuantumCircuit.qubit qc q) as [q'|e'] eqn:Hq; cbn; [done|].
    intros [= <-]. by eapply qubit_error.
Qed.

Lemma keeps_gate2 (g : Z -> Z -> instruction) (a b : Z) :
  (forall a' b', qubits (g a' b') = [a'; b']) ->
  keeps_to_circuit (call (QuantumCircuit.gate2 g a b)).
Proof.
  intros Hg. apply keeps_call; unfold QuantumCircuit.gate2.
  - intros qc qc' Hqc.
    destruct (QuantumCircuit.qubit qc a) as [a'|e] eqn:Ha; cbn; [|done].
    destruct (QuantumCircuit.qubit qc b) as [b'|e] eqn:Hb; cbn; [|done].
    case_decide as Hab; [done|]. intros [= <-]. split; [|done].
    apply qubit_in_circuit in Ha, Hb.
    apply well_formed_push; [done|..]; rewrite Hg.
    + apply NoDup_cons. split; [by rewrite list_elem_of_singleton|].
      apply NoDup_singleton.
    + apply Forall_cons. split; [done|]. by apply Forall_singleton.
  - intros qc e.
    destruct (QuantumCircuit.qubit qc a) as [a'|e'] eqn:Ha; cbn;
      [|intros [= <-]; by eapply qubit_error].
    destruct (QuantumCircuit.qubit qc b) as [b'|e'] eqn:Hb; cbn;
      [|intros [= <-]; by eapply qubit_error].
    case_decide; [|done]. intros [= <-]. right. by eexists.
Qed.

Lemma mapM_qubit_in_circuit (qc : QuantumCircuit.t) (l qs : list Z) :
  mapM (QuantumCircuit.qubit qc) l = Ok qs ->
  Forall (fun q => 0 <= q < QuantumCircuit.num_qubits qc) qs.
Proof.
  revert qs. induction l as [|i l IH]; intros qs; cbn.
  - intros [= <-]. constructor.
  - destruct (QuantumCircuit.qubit qc i) as [q|e] eqn:Hq; cbn; [|done].
    destruct (mapM (QuantumCircuit.qubit qc) l) as [qs'|e]; cbn; [|done].
    intros [= <-]. constructor; [by eapply qubit_in_circuit|by apply IH].
Qed.

Lemma mapM_qubit_error (qc : QuantumCircuit.t) (l : list Z) (e : exn) :
  mapM (QuantumCircuit.qubit qc) l = Raise e -> call_error e.
Proof.
  induction l as [|i l IH]; cbn; [done|].
  destruct (QuantumCircuit.qubit qc i) as [q|e'] eqn:Hq; cbn;
    [|intros [= <-]; by eapply qubit_error].
  destruct (mapM (QuantumCircuit.qubit qc) l) as [qs'|e']; cbn; [done|].
  intros [= <-]. by apply IH.
Qed.

Lemma foldl_push_H_keeps (qs : list Z) (qc : QuantumCircuit.t) :
  well_formed qc ->
  Forall (fun q => 0 <= q < QuantumCircuit.num_qubits qc) qs ->
  let qc' := foldl (fun c q => QuantumCircuit.push (HGate q) c) qc qs in
  well_formed qc' /\
  QuantumCircuit.num_qubits qc' = QuantumCircuit.num_qubits qc /\
  QuantumCircuit.name qc' = QuantumCircuit.name qc.
Proof.
  revert qc. induction qs as [|q qs IH]; intros qc Hqc Hqs; cbn; [done|].
  apply Forall_cons in Hqs as [Hq Hqs].
  destruct (IH (QuantumCircuit.push (HGate q) qc)) as (? & ? & ?); [..|done].
  - apply well_formed_push; [done|apply NoDup_singleton|by apply Forall_singleton].
  - exact Hqs.
Qed.

Lemma keeps_h (l : list Z) : keeps_to_circuit (call (QuantumCircuit.h l)).
Proof.
  apply keeps_call; unfold QuantumCircuit.h.
  - intros qc qc' Hqc.
    destruct (mapM (QuantumCircuit.qubit qc) l) as [qs|e] eqn:Hl; cbn; [|done].
    case_decide; [done|]. intros [= <-].
    apply foldl_push_H_keeps; [done|by eapply mapM_qubit_in_circuit].
  - intros qc e.
    destruct (mapM (QuantumCircuit.qubit qc) l) as [qs|e'] eqn:Hl; cbn;
      [|intros [= <-]; by eapply mapM_qubit_error].
    case_decide; [|done]. intros [= <-]. right. by eexists.
Qed.

Lemma keeps_barrier (l : option string) :
  keeps_to_circuit (call (QuantumCircuit.barrier l)).
Proof.
  apply keeps_call; unfold QuantumCircuit.barrier; [|done].
  intros qc qc' Hqc [= <-]. split; [|done].
  apply well_formed_push; [done|constructor|constructor].
Qed.

Lemma keeps_state_preparation (w : widths) :
  keeps_to_circuit (state_preparation w).
Proof.
  unfold state_preparation, QuantumCircuit.cx, QuantumCircuit.p, QuantumCircuit.crz.
  repeat (apply keeps_bind; [|intros _]);
    first [apply keeps_h | apply keeps_barrier | by apply keeps_gate2
          | by apply keeps_gate1].
Qed.

Lemma keeps_birth_proclamation_1 (w : widths) :
  keeps_to_circuit (birth_proclamation_circuit w 1).
Proof.
  unfold birth_proclamation_circuit, QuantumCircuit.cx, QuantumCircuit.x,
    QuantumCircuit.rx, QuantumCircuit.rz.
  cbv zeta. rewrite str_1.
  repeat (apply keeps_bind; [|intros ?]);
    first [apply keeps_eval | apply keeps_barrier | by apply keeps_gate2
          | by apply keeps_gate1].
Qed.

Lemma keeps_apply_trade_barter (w : widths) :
  keeps_to_circuit (apply_trade_barter w).
Proof.
  intros qc Hqc. rewrite apply_trade_barter_raises. cbn.
  repeat split; try done. intros e [= <-]. by left.
Qed.

(** A run of a program that keeps to the circuit. *)
Lemma run_keeps (w : widths) (m : program unit) :
  keeps_to_circuit m ->
  match run w m with
  | Completed qc =>
      well_formed qc /\ QuantumCircuit.num_qubits qc = TOTAL_QUBITS w
  | Stopped qc e =>
      well_formed qc /\ QuantumCircuit.num_qubits qc = TOTAL_QUBITS w /\
      call_error e
  | NoCircuit e => call_error e
  end.
Proof.
  intros Hm. unfold run, QuantumCircuit.new. case_decide.
  - right. by eexists.
  - destruct (Hm (QuantumCircuit.Build (TOTAL_QUBITS w)
                    "Equaddle_Nights_Landing_Final" [])) as (Hwf & Hn & _ & He).
    { constructor. }
    destruct (m _) as [qc' [[]|e]]; cbn in *; [done|].
    split; [done|]. split; [done|]. by apply He.
Qed.

Lemma keeps_construction (w : widths) :
  keeps_to_circuit (state_preparation w ;; birth_proclamation_circuit w 1 ;;
                    apply_trade_barter w).
Proof.
  apply keeps_bind; [apply keeps_state_preparation|intros _].
  apply keeps_bind; [apply keeps_birth_proclamation_1|intros _].
  apply keeps_apply_trade_barter.
Qed.

(** The exchange ends every run: the construction never completes. *)
Lemma construction_never_completes (w : widths) (qc : QuantumCircuit.t) :
  Equaddle_Nights_Landing_Final w <> Completed qc.
Proof.
  unfold Equaddle_Nights_Landing_Final, run.
  destruct (QuantumCircuit.new _ _) as [qc0|e]; [|done].
  unfold mbind, program_bind.
  destruct (state_preparation w qc0) as [qc1 [[]|e1]]; [|done].
  destruct (birth_proclamation_circuit w 1 qc1) as [qc2 [[]|e2]]; [|done].
  by rewrite apply_trade_barter_raises.
Qed.

Lemma built_in_circuit (w : widths) :
  Forall (fun i => NoDup (qubits i) /\
                   Forall (fun q => 0 <= q < TOTAL_QUBITS w) (qubits i))
         (built (Equaddle_Nights_Landing_Final w)).
Proof.
  pose proof (run_keeps w _ (keeps_construction w)) as H.
  fold (Equaddle_Nights_Landing_Final w) in H.
  destruct (Equaddle_Nights_Landing_Final w) as [qc|qc e|e]; cbn.
  - destruct H as [Hwf <-]. exact Hwf.
  - destruct H as (Hwf & <- & _). exact Hwf.
  - constructor.
Qed.

Lemma Composer_error (w : widths) (e : exn) :
  Composer w = Raise e -> call_error e.
Proof.
  pose proof (run_keeps w _ (keeps_construction w)) as H.
  fold (Equaddle_Nights_Landing_Final w) in H. unfold Composer.
  destruct (Equaddle_Nights_Landing_Final w) as [qc|qc e'|e']; [done|..];
    intros [= <-]; [apply H|exact H].
Qed.

End Invariant.

Section Segments.

Lemma segments_from_gates (gs cur ops : list instruction) :
  forallb (fun i => negb (is_barrier i)) gs = true ->
  segments_from cur (gs ++ ops) = segments_from (rev gs ++ cur) ops.
Proof.
  revert cur. induction gs as [|g gs IH]; intros cur Hg; [done|].
  simpl in Hg. apply andb_prop in Hg as [Hg Hgs].
  change ((g :: gs) ++ ops) with (g :: (gs ++ ops)).
  destruct g; try discriminate Hg;
    cbn [segments_from]; rewrite IH by done;
    cbn [rev]; by rewrite <- app_assoc.
Qed.

Lemma hadamards_are_gates (qs : list Z) :
  forallb (fun i => negb (is_barrier i)) (HGate <$> qs) = true.
Proof. induction qs; simpl; auto. Qed.

Lemma hadamards_no_barrier (qs : list Z) :
  List.filter is_barrier (HGate <$> qs) = [].
Proof. induction qs; simpl; auto. Qed.

Lemma hadamards_no_crz (qs : list Z) :
  List.filter is_crz (HGate <$> qs) = [].
Proof. induction qs; simpl; auto. Qed.

Lemma hadamards_no_label (qs : list Z) :
  barrier_labels (HGate <$> qs) = [].
Proof. induction qs; simpl; auto. Qed.

Lemma barrier_labels_app (l1 l2 : list instruction) :
  barrier_labels (l1 ++ l2) = barrier_labels l1 ++ barrier_labels l2.
Proof. unfold barrier_labels. apply omap_app. Qed.

(** The sequence with the Hadamards in front and the fixed tail after. *)
Lemma operation_sequence_tail (w : widths) :
  exists tail,
    operation_sequence w = (HGate <$> Phase w) ++ tail /\
    tail = Barrier (Some "P_Infinite_Phases"%string) ::
           stage_phase_existence w ++
           Barrier (Some "E_Existence_Entanglement"%string) ::
           stage_existence_resource w ++
           Barrier (Some "R_Equaddle_Enforcement"%string) ::
           stage_golden_ratio w ++ stage_energy w ++
           Barrier (Some "Hyperdimensional_Energy_Layer"%string) ::
           stage_proclamation_flip w ++
           Barrier (Some "V_TPP_Proclamation_1"%string) ::
           stage_proclamation_rest w ++ [Barrier None].
Proof.
  eexists. split; [|reflexivity].
  unfold operation_sequence, preparation_sequence, proclamation_block,
    stage_superposition.
  rewrite <- app_assoc. reflexivity.
Qed.

Lemma segments_operation_sequence (w : widths) :
  segments (operation_sequence w) = (module_segments w, []).
Proof.
  destruct (operation_sequence_tail w) as (tail & -> & ->).
  unfold segments. rewrite segments_from_gates by apply hadamards_are_gates.
  rewrite app_nil_r. cbn. by rewrite rev_involutive.
Qed.

Lemma barrier_count_operation_sequence (w : widths) :
  barrier_count (operation_sequence w) = 6%nat.
Proof.
  destruct (operation_sequence_tail w) as (tail & -> & ->).
  unfold barrier_count. rewrite List.filter_app, hadamards_no_barrier. reflexivity.
Qed.

Lemma barrier_labels_operation_sequence (w : widths) :
  barrier_labels (operation_sequence w) = module_barrier_labels.
Proof.
  destruct (operation_sequence_tail w) as (tail & -> & ->).
  rewrite barrier_labels_app, hadamards_no_label. reflexivity.
Qed.

Lemma gates_operation_sequence (w : widths) :
  gates (operation_sequence w) = concat (take 6 (logical_stages w)).
Proof.
  destruct (operation_sequence_tail w) as (tail & -> & ->).
  unfold gates. rewrite List.filter_app.
  rewrite (forallb_filter_id _ (HGate <$> Phase w)) by apply hadamards_are_gates.
  cbn. unfold stage_superposition. by rewrite ?app_nil_r.
Qed.

Lemma crz_operation_sequence (w : widths) :
  List.filter is_crz (operation_sequence w) = stage_energy w.
Proof.
  destruct (operation_sequence_tail w) as (tail & -> & ->).
  rewrite List.filter_app, hadamards_no_crz. reflexivity.
Qed.

Lemma length_operation_sequence (w : widths) :
  length (operation_sequence w) = (Z.to_nat (PHASE_QUBITS w) + 18)%nat.
Proof.
  destruct (operation_sequence_tail w) as (tail & -> & ->).
  unfold Phase, range, E_START, P_START.
  rewrite length_app, length_fmap, length_seqZ. cbn. f_equal. lia.
Qed.

End Segments.

(** The module's configuration, evaluated: the twenty instructions the
    circuit holds when the exchange raises. *)
Example reference_circuit :
  Equaddle_Nights_Landing_Final reference_sizing =
  Stopped
    (QuantumCircuit.Build 8 "Equaddle_Nights_Landing_Final"
       [HGate 0; HGate 1; Barrier (Some "P_Infinite_Phases"%string);
        CXGate 0 2; CXGate 1 3; Barrier (Some "E_Existence_Entanglement"%string);
        CXGate 2 4; CXGate 3 5; Barrier (Some "R_Equaddle_Enforcement"%string);
        PhaseGate (Prim2SF (((1 + sqrt 5) / 2) * 3.141592653589793)%float) 4
          "R_Phi_Infinity_Fabric_0";
        PhaseGate (Prim2SF (((1 + sqrt 5) / 2) * 3.141592653589793)%float) 5
          "R_Phi_Infinity_Fabric_1";
        CRZGate (Prim2SF (3.14159 * 1000)%float) 2 4 "E_MC_Waveforms_Transfer";
        Barrier (Some "Hyperdimensional_Energy_Layer"%string);
        XGate 7; Barrier (Some "V_TPP_Proclamation_1"%string);
        CXGate 2 6; CXGate 3 7;
        RXGate (Prim2SF (3.141592653589793 / sqrt 5)%float) 6 "V_Hyperdimensional_Rx";
        RZGate (Prim2SF (0.0001 * 3.141592653589793)%float) 7
          "V_Pneumatic_Macro_Density";
        Barrier None])
    TypeError.
Proof. vm_compute. reflexivity. Qed.

(** One-bit registers: the basis flip of the proclamation is refused. *)
Example one_bit_registers :
  Equaddle_Nights_Landing_Final (Widths 1 1 1 1) =
  Stopped
    (QuantumCircuit.Build 4 "Equaddle_Nights_Landing_Final"
       [HGate 0; Barrier (Some "P_Infinite_Phases"%string);
        CXGate 0 1; CXGate 1 2; Barrier (Some "E_Existence_Entanglement"%string);
        CXGate 1 2; CXGate 2 3; Barrier (Some "R_Equaddle_Enforcement"%string);
        PhaseGate (Float64.mul PHI Float64.pi) 2 "R_Phi_Infinity_Fabric_0";
        PhaseGate (Float64.mul PHI Float64.pi) 3 "R_Phi_Infinity_Fabric_1";
        CRZGate MASS_CONSTANT 1 2 "E_MC_Waveforms_Transfer";
        Barrier (Some "Hyperdimensional_Energy_Layer"%string)])
    (CircuitError (IndexOutOfRange 4 4)).
Proof. vm_compute. reflexivity. Qed.

(** An empty Phase register, and an empty Existence register. *)
Example empty_phase_register :
  Equaddle_Nights_Landing_Final (Widths 0 2 2 2) =
  Stopped (QuantumCircuit.Build 6 "Equaddle_Nights_Landing_Final" [])
    (CircuitError EmptyArguments).
Proof. vm_compute. reflexivity. Qed.

Example empty_existence_register :
  Equaddle_Nights_Landing_Final (Widths 2 0 2 2) =
  Stopped
    (QuantumCircuit.Build 6 "Equaddle_Nights_Landing_Final"
       [HGate 0; HGate 1; Barrier (Some "P_Infinite_Phases"%string);
        CXGate 0 2; CXGate 1 3; Barrier (Some "E_Existence_Entanglement"%string)])
    (CircuitError DuplicateQubitArguments).
Proof. vm_compute. reflexivity. Qed.

(** The proclamation on a circuit of four qubits, and for an entity whose
    index has 4301 digits. *)
Example proclamation_on_four_qubits :
  birth_proclamation_circuit reference_sizing 1 (QuantumCircuit.Build 4 "qc" [])
  = (QuantumCircuit.Build 4 "qc" [], Raise (CircuitError (IndexOutOfRange 7 4))).
Proof. vm_compute. reflexivity. Qed.

Example proclamation_of_a_long_index :
  birth_proclamation_circuit reference_sizing (10 ^ 4300)
    (QuantumCircuit.Build 8 "qc" [])
  = (QuantumCircuit.Build 8 "qc" [XGate 7], Raise ValueError).
Proof. vm_compute. reflexivity. Qed.

(** ** Register layout *)

(** C9: for widths that are not negative, the four registers partition the
    bit array.  Each start offset is the sum of the widths before it; each
    register is the interval of its width from its offset; laid end to end
    in the order Phase, Existence, Resource, Value they are exactly the
    indices [0, TOTAL_QUBITS), so there is no gap, and no index occurs
    twice, so no two registers overlap. *)
Theorem register_layout_partition (w : widths) :
  0 <= PHASE_QUBITS w -> 0 <= EXISTENCE_QUBITS w ->
  0 <= RESOURCE_QUBITS w -> 0 <= TPP_VALUE_QUBITS w ->
  (P_START w = 0 /\
   E_START w = PHASE_QUBITS w /\
   R_START w = PHASE_QUBITS w + EXISTENCE_QUBITS w /\
   V_START w = PHASE_QUBITS w + EXISTENCE_QUBITS w + RESOURCE_QUBITS w) /\
  (forall i, (i ∈ Phase w <-> P_START w <= i < P_START w + PHASE_QUBITS w) /\
             (i ∈ Existence w <-> E_START w <= i < E_START w + EXISTENCE_QUBITS w) /\
             (i ∈ Resource w <-> R_START w <= i < R_START w + RESOURCE_QUBITS w) /\
             (i ∈ Value w <-> V_START w <= i < V_START w + TPP_VALUE_QUBITS w)) /\
  Phase w ++ Existence w ++ Resource w ++ Value w = seqZ 0 (TOTAL_QUBITS w) /\
  NoDup (Phase w ++ Existence w ++ Resource w ++ Value w).
Proof.
  intros HP HE HR HV.
  assert (Hcat : Phase w ++ Existence w ++ Resource w ++ Value w
                 = seqZ 0 (TOTAL_QUBITS w)).
  { unfold Phase, Existence, Resource, Value, range, TOTAL_QUBITS,
      V_START, R_START, E_START, P_START.
    replace (PHASE_QUBITS w + EXISTENCE_QUBITS w + RESOURCE_QUBITS w
             + TPP_VALUE_QUBITS w)
      with (PHASE_QUBITS w + (EXISTENCE_QUBITS w + (RESOURCE_QUBITS w
             + TPP_VALUE_QUBITS w))) by lia.
    rewrite (seqZ_app 0) by lia.
    rewrite (seqZ_app (0 + PHASE_QUBITS w)) by lia.
    rewrite (seqZ_app (0 + PHASE_QUBITS w + EXISTENCE_QUBITS w)) by lia.
    repeat f_equal; lia. }
  split; [|split; [|split]].
  - unfold V_START, R_START, E_START, P_START. lia.
  - intros i. unfold Phase, Existence, Resource, Value, range.
    rewrite !elem_of_seqZ.
    unfold TOTAL_QUBITS, V_START, R_START, E_START, P_START. lia.
  - exact Hcat.
  - rewrite Hcat. apply NoDup_seqZ.
Qed.

Lemma register_layout_partition_reference :
  (P_START reference_sizing = 0 /\
   E_START reference_sizing = 2 /\
   R_START reference_sizing = 2 + 2 /\
   V_START reference_sizing = 2 + 2 + 2) /\
  Phase reference_sizing ++ Existence reference_sizing ++
    Resource reference_sizing ++ Value reference_sizing = seqZ 0 8.
Proof.
  destruct (register_layout_partition reference_sizing) as (Ho & _ & Hc & _);
    simpl; try lia.
  split; [exact Ho | exact Hc].
Defined.

(** ** The operation sequence *)

(** C4, as the module has it: the construction checks no width and never
    fails with [InvalidRegisterLayout]; what stops it is an exception of a
    call on the circuit.  For widths that are not negative, the state
    preparation and the proclamation are built exactly when Phase and
    Existence have at least one bit and Value at least two, whatever the
    Resource width and whether or not the widths are equal; otherwise a
    gate call is refused with [CircuitError]. *)
Theorem Composer_checks_no_width (w : widths) :
  Composer w <> Raise InvalidRegisterLayout /\
  (0 <= TOTAL_QUBITS w -> forall e, Composer w = Raise e -> call_error e) /\
  (0 <= PHASE_QUBITS w -> 0 <= EXISTENCE_QUBITS w ->
   0 <= RESOURCE_QUBITS w -> 0 <= TPP_VALUE_QUBITS w ->
   (1 <= PHASE_QUBITS w /\ 1 <= EXISTENCE_QUBITS w /\ 2 <= TPP_VALUE_QUBITS w /\
    through_proclamation w
    = Completed (QuantumCircuit.Build (TOTAL_QUBITS w) "Equaddle_Nights_Landing_Final"
                   (operation_sequence w)) /\
    length (operation_sequence w) = (Z.to_nat (PHASE_QUBITS w) + 18)%nat) \/
   (~ (1 <= PHASE_QUBITS w /\ 1 <= EXISTENCE_QUBITS w /\ 2 <= TPP_VALUE_QUBITS w) /\
    exists qc message,
      through_proclamation w = Stopped qc (CircuitError message))).
Proof.
  assert (He : forall e, Composer w = Raise e -> call_error e)
    by apply Composer_error.
  split.
  { intros H. destruct (He _ H) as [?|[? ?]]; discriminate. }
  split; [intros _; exact He|].
  intros HP HE HR HV.
  destruct (ending_by_widths w HP HE HR HV)
    as [(H0 & qc & Hs & _)|[(H1 & H0 & H2 & qc & Hs & _)
       |[(H1 & H2 & qc & i & Hi & Hs & _)|(H1 & H2 & H3 & Hs & _)]]].
  - right. split; [lia|]. by exists qc, EmptyArguments.
  - right. split; [lia|]. by exists qc, DuplicateQubitArguments.
  - right. split; [lia|]. by exists qc, (IndexOutOfRange i (TOTAL_QUBITS w)).
  - left. split; [done|]. split; [done|]. split; [done|]. split; [done|].
    apply length_operation_sequence.
Qed.

(** C4 as stated fails on the specification's own example: the widths
    (2,2,3,2) are not valid, and the construction builds the state
    preparation and the proclamation on nine qubits as it does for the
    module's widths; the exception that then ends it is [TypeError], not
    [InvalidRegisterLayout]. *)
Lemma Composer_accepts_2_2_3_2 :
  valid_layout (Widths 2 2 3 2) = false /\
  Composer (Widths 2 2 3 2) <> Raise InvalidRegisterLayout /\
  Composer (Widths 2 2 3 2) = Raise TypeError /\
  exists qc,
    through_proclamation (Widths 2 2 3 2) = Completed qc /\
    Equaddle_Nights_Landing_Final (Widths 2 2 3 2) = Stopped qc TypeError /\
    QuantumCircuit.num_qubits qc = 9 /\
    length (QuantumCircuit.data qc) = 20%nat /\
    indices_in_range 9 (QuantumCircuit.data qc) = true.
Proof.
  split; [reflexivity|]. split; [by vm_compute|]. split; [by vm_compute|].
  eexists. split; [vm_compute; reflexivity|]. split; [vm_compute; reflexivity|].
  split; [reflexivity|]. split; reflexivity.
Qed.

(** C5, as the module has it: whatever the widths the library accepts, the
    state preparation and the proclamation hold exactly six barriers, the
    sequence ends with one, and cutting it at the barriers gives: the Phase
    superposition; the Phase-Existence coupling; the Existence-Resource
    coupling; the golden-ratio rotations together with the energy coupling;
    the basis flip of the proclamation alone; the rest of the proclamation.
    The sixth barrier has no label. *)
Theorem barriers_of_the_module (w : widths) :
  1 <= PHASE_QUBITS w -> 1 <= EXISTENCE_QUBITS w ->
  0 <= RESOURCE_QUBITS w -> 2 <= TPP_VALUE_QUBITS w ->
  exists qc, through_proclamation w = Completed qc /\
    barrier_count (QuantumCircuit.data qc) = 6%nat /\
    segments (QuantumCircuit.data qc) = (module_segments w, []) /\
    barrier_labels (QuantumCircuit.data qc) = module_barrier_labels /\
    gates (QuantumCircuit.data qc) = concat (take 6 (logical_stages w)).
Proof.
  intros HP HE HR HV. eexists.
  split; [by apply through_proclamation_completed|]. cbn [QuantumCircuit.data].
  split; [apply barrier_count_operation_sequence|].
  split; [apply segments_operation_sequence|].
  split; [apply barrier_labels_operation_sequence|].
  apply gates_operation_sequence.
Qed.

Lemma barriers_of_the_module_reference :
  exists qc, through_proclamation reference_sizing = Completed qc /\
    barrier_count (QuantumCircuit.data qc) = 6%nat /\
    segments (QuantumCircuit.data qc) = (module_segments reference_sizing, []) /\
    barrier_labels (QuantumCircuit.data qc) = module_barrier_labels /\
    gates (QuantumCircuit.data qc) = concat (take 6 (logical_stages reference_sizing)).
Proof. apply (barriers_of_the_module reference_sizing); cbn; lia. Defined.

(** C5 as stated fails at the module's own widths: the circuit the
    construction leaves holds six barriers, not seven, and they do not
    close the stages one by one.  No barrier stands between the
    golden-ratio rotations and the energy coupling, and one stands inside
    the proclamation. *)
Lemma barriers_not_after_each_stage :
  barrier_count (built (Equaddle_Nights_Landing_Final reference_sizing)) = 6%nat /\
  ~ barrier_after_each_stage reference_sizing
      (built (Equaddle_Nights_Landing_Final reference_sizing)) /\
  (segments (built (Equaddle_Nights_Landing_Final reference_sizing))).1
  <> take 6 (logical_stages reference_sizing).
Proof.
  rewrite construction_stopped by (cbn; lia). cbn [built QuantumCircuit.data].
  rewrite barrier_count_operation_sequence, segments_operation_sequence.
  split; [done|]. split.
  - unfold barrier_after_each_stage.
    rewrite barrier_count_operation_sequence. intros [? _]. discriminate.
  - cbn [fst]. intros Heq. apply (f_equal (fmap length)) in Heq.
    vm_compute in Heq. discriminate Heq.
Qed.

(** C6, as the module has it.  Every instruction the circuit holds when
    the construction ends acts on qubits in [0, TOTAL_QUBITS).  With
    validated widths (positive and equal) of two bits or more the state
    preparation and the proclamation are built and no index is refused;
    with validated widths of one bit the index [V_START + 1 = 4] of the
    basis flip is refused as out of range for four qubits.  So the
    out-of-range error is reachable with validated widths, exactly for
    one-bit registers. *)
Theorem indices_within_register (w : widths) :
  valid_layout w = true ->
  Forall (fun i => Forall (fun q => 0 <= q < TOTAL_QUBITS w) (qubits i))
    (built (Equaddle_Nights_Landing_Final w)) /\
  indices_in_range (TOTAL_QUBITS w) (built (Equaddle_Nights_Landing_Final w)) = true /\
  (2 <= PHASE_QUBITS w ->
   through_proclamation w
   = Completed (QuantumCircuit.Build (TOTAL_QUBITS w) "Equaddle_Nights_Landing_Final"
                  (operation_sequence w))) /\
  (PHASE_QUBITS w = 1 ->
   exists qc,
     through_proclamation w = Stopped qc (CircuitError (IndexOutOfRange 4 4)) /\
     Equaddle_Nights_Landing_Final w
     = Stopped qc (CircuitError (IndexOutOfRange 4 4)) /\
     Composer w = Raise (CircuitError (IndexOutOfRange 4 4))) /\
  ((exists qc i n,
      Equaddle_Nights_Landing_Final w = Stopped qc (CircuitError (IndexOutOfRange i n)))
   <-> PHASE_QUBITS w = 1).
Proof.
  intros Hv. unfold valid_layout in Hv.
  repeat (apply andb_prop in Hv as [Hv ?]).
  assert (HF : Forall (fun i => Forall (fun q => 0 <= q < TOTAL_QUBITS w) (qubits i))
                 (built (Equaddle_Nights_Landing_Final w))).
  { eapply Forall_impl; [apply built_in_circuit|]. by intros i [_ Hi]. }
  assert (Hone : PHASE_QUBITS w = 1 ->
    exists qc,
      through_proclamation w = Stopped qc (CircuitError (IndexOutOfRange 4 4)) /\
      Equaddle_Nights_Landing_Final w
      = Stopped qc (CircuitError (IndexOutOfRange 4 4)) /\
      Composer w = Raise (CircuitError (IndexOutOfRange 4 4))).
  { intros HP. destruct w as [P E R V]. cbn in *.
    assert (P = 1 /\ E = 1 /\ R = 1 /\ V = 1) as (-> & -> & -> & ->) by lia.
    eexists. split; [vm_compute; reflexivity|].
    split; [vm_compute; reflexivity|]. by vm_compute. }
  split; [exact HF|]. split.
  { unfold indices_in_range. apply forallb_forall. intros i Hi.
    apply forallb_forall. intros q Hq.
    rewrite Forall_forall in HF. apply list_elem_of_In in Hi, Hq.
    specialize (HF i Hi). rewrite Forall_forall in HF. specialize (HF q Hq).
    unfold index_in_range. apply andb_true_intro. split; lia. }
  split.
  { intros HP. apply through_proclamation_completed; lia. }
  split; [exact Hone|]. split.
  - intros (qc & i & n & Hs).
    destruct (decide (PHASE_QUBITS w = 1)) as [|Hne]; [done|].
    rewrite construction_stopped in Hs by lia. discriminate Hs.
  - intros HP. destruct (Hone HP) as (qc & _ & Hs & _). by exists qc, 4, 4.
Qed.

Lemma indices_within_register_reference :
  Forall (fun i => Forall (fun q => 0 <= q < 8) (qubits i))
    (built (Equaddle_Nights_Landing_Final reference_sizing)) /\
  indices_in_range 8 (built (Equaddle_Nights_Landing_Final reference_sizing)) = true /\
  through_proclamation reference_sizing
  = Completed (QuantumCircuit.Build 8 "Equaddle_Nights_Landing_Final"
                 (operation_sequence reference_sizing)).
Proof.
  destruct (indices_within_register reference_sizing) as (HF & Hb & Hc & _);
    [reflexivity|].
  split; [exact HF|]. split; [exact Hb|]. apply Hc. cbn. lia.
Defined.

(** C6 as stated fails for one-bit registers: the widths (1,1,1,1) pass the
    specification's validity rule, the circuit has four qubits, and the
    construction is stopped by the out-of-range error when the proclamation
    flips the qubit [V_START + 1 = 4]. *)
Lemma index_out_of_register_1_1_1_1 :
  valid_layout (Widths 1 1 1 1) = true /\
  TOTAL_QUBITS (Widths 1 1 1 1) = 4 /\
  V_START (Widths 1 1 1 1) + 1 = 4 /\
  Composer (Widths 1 1 1 1) = Raise (CircuitError (IndexOutOfRange 4 4)) /\
  exists qc,
    Equaddle_Nights_Landing_Final (Widths 1 1 1 1)
    = Stopped qc (CircuitError (IndexOutOfRange 4 4)) /\
    length (QuantumCircuit.data qc) = 12%nat.
Proof.
  split; [reflexivity|]. split; [reflexivity|]. split; [reflexivity|].
  split; [by vm_compute|].
  eexists. split; [vm_compute; reflexivity|]. reflexivity.
Qed.

(** C8: with at least one bit in Phase, Existence and Resource and two in
    Value, the circuit the construction leaves holds exactly one
    controlled-RZ coupling; its control is the bit [PHASE_QUBITS], the
    first of the Existence register, its target is the bit
    [PHASE_QUBITS + EXISTENCE_QUBITS], the first of the Resource register,
    and its angle is [MASS_CONSTANT], the float [3.14159 * 1000]. *)
Theorem single_energy_coupling (w : widths) :
  1 <= PHASE_QUBITS w -> 1 <= EXISTENCE_QUBITS w ->
  1 <= RESOURCE_QUBITS w -> 2 <= TPP_VALUE_QUBITS w ->
  List.filter is_crz (built (Equaddle_Nights_Landing_Final w))
  = [CRZGate MASS_CONSTANT (PHASE_QUBITS w) (PHASE_QUBITS w + EXISTENCE_QUBITS w)
       "E_MC_Waveforms_Transfer"] /\
  List.filter is_crz (built (through_proclamation w))
  = List.filter is_crz (built (Equaddle_Nights_Landing_Final w)) /\
  Existence w !! 0%nat = Some (PHASE_QUBITS w) /\
  Resource w !! 0%nat = Some (PHASE_QUBITS w + EXISTENCE_QUBITS w) /\
  MASS_CONSTANT = Prim2SF (3.14159 * 1000)%float.
Proof.
  intros HP HE HR HV.
  rewrite construction_stopped, through_proclamation_completed by lia.
  cbn [built QuantumCircuit.data]. rewrite crz_operation_sequence.
  split; [|split; [done|split; [|split]]].
  - unfold stage_energy, R_START, E_START, P_START. do 2 f_equal; lia.
  - unfold Existence, range, R_START, E_START, P_START.
    rewrite lookup_seqZ_lt by lia. f_equal. lia.
  - unfold Resource, range, V_START, R_START, E_START, P_START.
    rewrite lookup_seqZ_lt by lia. f_equal. lia.
  - vm_compute. reflexivity.
Qed.

Lemma single_energy_coupling_reference :
  List.filter is_crz (built (Equaddle_Nights_Landing_Final reference_sizing))
  = [CRZGate MASS_CONSTANT 2 4 "E_MC_Waveforms_Transfer"] /\
  Existence reference_sizing !! 0%nat = Some 2 /\
  Resource reference_sizing !! 0%nat = Some 4.
Proof.
  destruct (single_energy_coupling reference_sizing) as (Hc & _ & He & Hr & _);
    cbn; try lia.
  split; [exact Hc|]. split; [exact He|exact Hr].
Defined.

(** ** Which qubits the gates act on *)

Section QubitUse.

Lemma referenced_app (l1 l2 : list instruction) (q : Z) :
  referenced (l1 ++ l2) q <-> referenced l1 q \/ referenced l2 q.
Proof.
  unfold referenced. split.
  - intros (i & [Hi|Hi]%elem_of_app & Hq); [left|right]; by exists i.
  - intros [(i & Hi & Hq)|(i & Hi & Hq)]; exists i; rewrite elem_of_app; tauto.
Qed.

Lemma referenced_cons (i : instruction) (l : list instruction) (q : Z) :
  referenced (i :: l) q <-> q ∈ qubits i \/ referenced l q.
Proof.
  unfold referenced. split.
  - intros (i' & [->|Hi]%elem_of_cons & Hq); [by left|right; by exists i'].
  - intros [Hq|(i' & Hi & Hq)]; [exists i|exists i']; rewrite elem_of_cons; tauto.
Qed.

Lemma referenced_nil (q : Z) : referenced [] q <-> False.
Proof. unfold referenced. split; [|done]. by intros (i & Hi%elem_of_nil & _). Qed.

Lemma referenced_hadamards (qs : list Z) (q : Z) :
  referenced (HGate <$> qs) q <-> q ∈ qs.
Proof.
  unfold referenced. split.
  - intros (i & (q' & -> & Hq')%list_elem_of_fmap & Hq).
    cbn in Hq. apply list_elem_of_singleton in Hq. by subst.
  - intros Hq. exists (HGate q). split.
    + apply list_elem_of_fmap. by exists q.
    + cbn. by apply list_elem_of_singleton.
Qed.

Lemma referenced_operation_sequence (w : widths) (q : Z) :
  referenced (operation_sequence w) q <-> q ∈ Phase w \/ q ∈ coupled_bits w.
Proof.
  destruct (operation_sequence_tail w) as (tail & -> & ->).
  rewrite referenced_app, referenced_hadamards.
  unfold stage_phase_existence, stage_existence_resource, stage_golden_ratio,
    stage_energy, stage_proclamation_flip, stage_proclamation_rest, coupled_bits.
  cbn [app]. rewrite !referenced_cons, referenced_nil. cbn [qubits].
  rewrite !elem_of_cons, !elem_of_nil. tauto.
Qed.

Lemma register_bounds (w : widths) (q : Z) :
  (q ∈ Phase w <-> P_START w <= q < P_START w + PHASE_QUBITS w) /\
  (q ∈ Existence w <-> E_START w <= q < E_START w + EXISTENCE_QUBITS w) /\
  (q ∈ Resource w <-> R_START w <= q < R_START w + RESOURCE_QUBITS w) /\
  (q ∈ Value w <-> V_START w <= q < V_START w + TPP_VALUE_QUBITS w).
Proof.
  unfold Phase, Existence, Resource, Value, range.
  rewrite !elem_of_seqZ.
  unfold TOTAL_QUBITS, V_START, R_START, E_START, P_START. lia.
Qed.

End QubitUse.

(** X8: when the state preparation and the proclamation are built, the
    qubits their instructions act on are those of the Phase register and
    the first two bits of each register, and no others. *)
Theorem referenced_qubits (w : widths) :
  1 <= PHASE_QUBITS w -> 1 <= EXISTENCE_QUBITS w ->
  0 <= RESOURCE_QUBITS w -> 2 <= TPP_VALUE_QUBITS w ->
  exists qc, through_proclamation w = Completed qc /\
    forall q, referenced (QuantumCircuit.data qc) q
              <-> q ∈ Phase w \/ q ∈ coupled_bits w.
Proof.
  intros HP HE HR HV. eexists.
  split; [by apply through_proclamation_completed|].
  intros q. apply referenced_operation_sequence.
Qed.

Lemma referenced_qubits_reference :
  exists qc, through_proclamation reference_sizing = Completed qc /\
    forall q, referenced (QuantumCircuit.data qc) q
              <-> q ∈ Phase reference_sizing \/ q ∈ coupled_bits reference_sizing.
Proof. apply (referenced_qubits reference_sizing); cbn; lia. Defined.

(** X9: with registers wider than two bits, the third and later bits of the
    Existence, Resource and Value registers are acted on by no instruction
    of the state preparation and the proclamation: the couplings stop at
    the second bit. *)
Theorem bits_beyond_the_second_are_untouched (w : widths) (q : Z) :
  1 <= PHASE_QUBITS w -> 1 <= EXISTENCE_QUBITS w ->
  0 <= RESOURCE_QUBITS w -> 2 <= TPP_VALUE_QUBITS w ->
  E_START w + 2 <= q < R_START w \/
  R_START w + 2 <= q < V_START w \/
  V_START w + 2 <= q < TOTAL_QUBITS w ->
  exists qc, through_proclamation w = Completed qc /\
    ~ referenced (QuantumCircuit.data qc) q.
Proof.
  intros HP HE HR HV Hq. eexists.
  split; [by apply through_proclamation_completed|]. cbn [QuantumCircuit.data].
  rewrite referenced_operation_sequence.
  unfold Phase, range, coupled_bits.
  rewrite elem_of_seqZ, !elem_of_cons, elem_of_nil.
  unfold TOTAL_QUBITS, V_START, R_START, E_START, P_START in *. lia.
Qed.

Lemma bits_beyond_the_second_are_untouched_2_4_4_4 :
  exists qc, through_proclamation (Widths 2 4 4 4) = Completed qc /\
    ~ referenced (QuantumCircuit.data qc) 4.
Proof.
  apply (bits_beyond_the_second_are_untouched (Widths 2 4 4 4) 4);
    unfold TOTAL_QUBITS, V_START, R_START, E_START, P_START; cbn; lia.
Defined.

(** X10: which widths the circuit library refuses, and how.  For widths
    that are not negative, the construction is stopped with "arguments are
    empty" exactly when the Phase register is empty; with "duplicate qubit
    arguments" exactly when Phase is not empty, Existence is empty and
    Resource and Value have two bits or more together, the
    Existence-Resource coupling then naming one qubit twice; with "index
    out of range" exactly when Phase is not empty and either Existence is
    empty and Resource and Value have at most one bit together, or Existence
    is not empty and Value has at most one bit.  In every other case the
    state preparation and the proclamation are built. *)
Theorem refusals_by_width (w : widths) :
  0 <= PHASE_QUBITS w -> 0 <= EXISTENCE_QUBITS w ->
  0 <= RESOURCE_QUBITS w -> 0 <= TPP_VALUE_QUBITS w ->
  ((exists qc, through_proclamation w = Stopped qc (CircuitError EmptyArguments))
   <-> PHASE_QUBITS w = 0) /\
  ((exists qc,
      through_proclamation w = Stopped qc (CircuitError DuplicateQubitArguments))
   <-> 1 <= PHASE_QUBITS w /\ EXISTENCE_QUBITS w = 0 /\
       2 <= RESOURCE_QUBITS w + TPP_VALUE_QUBITS w) /\
  ((exists qc i n,
      through_proclamation w = Stopped qc (CircuitError (IndexOutOfRange i n)))
   <-> 1 <= PHASE_QUBITS w /\
       (EXISTENCE_QUBITS w = 0 /\ RESOURCE_QUBITS w + TPP_VALUE_QUBITS w <= 1 \/
        1 <= EXISTENCE_QUBITS w /\ TPP_VALUE_QUBITS w <= 1)) /\
  ((exists qc, through_proclamation w = Completed qc)
   <-> 1 <= PHASE_QUBITS w /\ 1 <= EXISTENCE_QUBITS w /\ 2 <= TPP_VALUE_QUBITS w).
Proof.
  intros HP HE HR HV.
  destruct (ending_by_widths w HP HE HR HV)
    as [(H0 & qc & Hs & _)|[(H1 & H0 & H2 & qc & Hs & _)
       |[(H1 & H2 & qc & i & Hi & Hs & _)|(H1 & H2 & H3 & Hs & _)]]];
    rewrite Hs.
  - split; [split; [done|by exists qc]|].
    split; [split; [by intros [? [=]]|lia]|].
    split; [split; [by intros (? & ? & ? & [=])|lia]|].
    split; [by intros [? [=]]|lia].
  - split; [split; [by intros [? [=]]|lia]|].
    split; [split; [done|by exists qc]|].
    split; [split; [by intros (? & ? & ? & [=])|lia]|].
    split; [by intros [? [=]]|lia].
  - split; [split; [by intros [? [=]]|lia]|].
    split; [split; [by intros [? [=]]|lia]|].
    split; [split; [done|by exists qc, i, (TOTAL_QUBITS w)]|].
    split; [by intros [? [=]]|lia].
  - split; [split; [by intros [? [=]]|lia]|].
    split; [split; [by intros [? [=]]|lia]|].
    split; [split; [by intros (? & ? & ? & [=])|lia]|].
    split; [done|by eexists].
Qed.

Lemma refusals_by_width_2_0_2_2 :
  exists qc,
    through_proclamation (Widths 2 0 2 2)
    = Stopped qc (CircuitError DuplicateQubitArguments).
Proof.
  destruct (refusals_by_width (Widths 2 0 2 2)) as (_ & Hd & _); cbn; try lia.
  apply Hd. cbn. lia.
Defined.

(** X11: with registers of at least two bits every instruction of the
    state preparation and the proclamation keeps to its registers.
    Hadamards act on Phase bits, phase rotations on Resource bits, the
    flip and the X and Z rotations on Value bits; each controlled flip
    couples bit [j] of Phase, Existence or Existence with bit [j] of
    Existence, Resource or Value; the controlled rotation goes from
    Existence to Resource; no exchange is in the circuit. *)
Theorem instructions_keep_to_their_registers (w : widths) :
  2 <= PHASE_QUBITS w -> 2 <= EXISTENCE_QUBITS w ->
  2 <= RESOURCE_QUBITS w -> 2 <= TPP_VALUE_QUBITS w ->
  exists qc, through_proclamation w = Completed qc /\
    built (Equaddle_Nights_Landing_Final w) = QuantumCircuit.data qc /\
    Forall (register_discipline w) (QuantumCircuit.data qc).
Proof.
  intros HP HE HR HV. eexists.
  split; [apply through_proclamation_completed; lia|].
  split; [by rewrite construction_stopped by lia|]. cbn [QuantumCircuit.data].
  pose proof (register_bounds w) as Hin.
  destruct (operation_sequence_tail w) as (tail & -> & ->).
  apply Forall_app. split.
  { apply Forall_fmap, Forall_forall. intros q Hq. exact Hq. }
  unfold stage_phase_existence, stage_existence_resource, stage_golden_ratio,
    stage_energy, stage_proclamation_flip, stage_proclamation_rest.
  cbn [app].
  repeat (apply Forall_cons; split); try apply Forall_nil_2;
    cbn [register_discipline]; try exact I.
  - exists 0. left. rewrite !(proj1 (Hin _)), !(proj1 (proj2 (Hin _))). offsets.
  - exists 1. left. rewrite !(proj1 (Hin _)), !(proj1 (proj2 (Hin _))). offsets.
  - exists 0. right. left.
    rewrite !(proj1 (proj2 (Hin _))), !(proj1 (proj2 (proj2 (Hin _)))). offsets.
  - exists 1. right. left.
    rewrite !(proj1 (proj2 (Hin _))), !(proj1 (proj2 (proj2 (Hin _)))). offsets.
  - rewrite (proj1 (proj2 (proj2 (Hin _)))). offsets.
  - rewrite (proj1 (proj2 (proj2 (Hin _)))). offsets.
  - rewrite (proj1 (proj2 (Hin _))), (proj1 (proj2 (proj2 (Hin _)))). offsets.
  - rewrite (proj2 (proj2 (proj2 (Hin _)))). offsets.
  - exists 0. right. right.
    rewrite !(proj1 (proj2 (Hin _))), !(proj2 (proj2 (proj2 (Hin _)))). offsets.
  - exists 1. right. right.
    rewrite !(proj1 (proj2 (Hin _))), !(proj2 (proj2 (proj2 (Hin _)))). offsets.
  - rewrite (proj2 (proj2 (proj2 (Hin _)))). offsets.
  - rewrite (proj2 (proj2 (proj2 (Hin _)))). offsets.
Qed.

Lemma instructions_keep_to_their_registers_reference :
  exists qc, through_proclamation reference_sizing = Completed qc /\
    built (Equaddle_Nights_Landing_Final reference_sizing) = QuantumCircuit.data qc /\
    Forall (register_discipline reference_sizing) (QuantumCircuit.data qc).
Proof. apply instructions_keep_to_their_registers; cbn; lia. Defined.

(** X12: [birth_proclamation_circuit] for widths that put the Existence
    bits before the Value bits.  On a circuit without the qubit
    [V_START + 1] the basis flip is refused as out of range and the circuit
    stays as it was.  On a circuit that has it, an entity index of at most
    4300 digits makes the function only append: what the circuit held stays
    in front, seven instructions follow, the qubits and the name stay; the
    index reaches nothing but the label of the first barrier, so the gates
    are the same for every entity and two entities get the same circuit only
    if they are the same entity.  For a longer index the basis flip is
    appended and the formatting of the label raises [ValueError]. *)
Theorem entity_index_only_labels (w : widths) (qc : QuantumCircuit.t) (e1 e2 : Z) :
  0 <= E_START w < V_START w ->
  length (proclamation_block w (pretty e1)) = 7%nat /\
  (QuantumCircuit.num_qubits qc <= V_START w + 1 ->
   birth_proclamation_circuit w e1 qc
   = (qc, Raise (CircuitError
                   (IndexOutOfRange (V_START w + 1) (QuantumCircuit.num_qubits qc))))) /\
  (V_START w + 1 < QuantumCircuit.num_qubits qc ->
   (Z.abs e1 < 10 ^ Py.int_max_str_digits ->
    birth_proclamation_circuit w e1 qc
    = (QuantumCircuit.Build (QuantumCircuit.num_qubits qc) (QuantumCircuit.name qc)
         (QuantumCircuit.data qc ++ proclamation_block w (pretty e1)), Ok ())) /\
   (Z.abs e1 < 10 ^ Py.int_max_str_digits ->
    Z.abs e2 < 10 ^ Py.int_max_str_digits ->
    gates (QuantumCircuit.data (birth_proclamation_circuit w e1 qc).1)
    = gates (QuantumCircuit.data (birth_proclamation_circuit w e2 qc).1) /\
    (birth_proclamation_circuit w e1 qc = birth_proclamation_circuit w e2 qc
     <-> e1 = e2)) /\
   (10 ^ Py.int_max_str_digits <= Z.abs e1 ->
    birth_proclamation_circuit w e1 qc
    = (QuantumCircuit.Build (QuantumCircuit.num_qubits qc) (QuantumCircuit.name qc)
         (QuantumCircuit.data qc ++ [XGate (V_START w + 1)]), Raise ValueError))).
Proof.
  intros HE. destruct qc as [n nm d]. cbn [QuantumCircuit.num_qubits
    QuantumCircuit.name QuantumCircuit.data] in *.
  split; [reflexivity|]. split.
  { intros Hn. apply birth_proclamation_refused; lia. }
  intros HV. split; [|split].
  - intros H1. by apply birth_proclamation_appends.
  - intros H1 H2. rewrite !birth_proclamation_appends by done.
    cbn [fst QuantumCircuit.data]. split.
    + unfold gates. rewrite !List.filter_app. f_equal.
    + split; [|by intros ->].
      intros [= Heq]. apply app_inv_head in Heq.
      unfold proclamation_block, stage_proclamation_flip in Heq.
      cbn [app] in Heq. injection Heq as Heq.
      apply (inj (String.app _)) in Heq. by apply (inj pretty) in Heq.
  - intros H1. apply birth_proclamation_large; [lia|done].
Qed.

Lemma entity_index_only_labels_1_2 :
  birth_proclamation_circuit reference_sizing 1 (QuantumCircuit.Build 8 "qc" [])
  = (QuantumCircuit.Build 8 "qc" (proclamation_block reference_sizing "1"), Ok ()) /\
  birth_proclamation_circuit reference_sizing 1 (QuantumCircuit.Build 8 "qc" [])
  <> birth_proclamation_circuit reference_sizing 2 (QuantumCircuit.Build 8 "qc" []) /\
  birth_proclamation_circuit reference_sizing 1 (QuantumCircuit.Build 4 "qc" [])
  = (QuantumCircuit.Build 4 "qc" [], Raise (CircuitError (IndexOutOfRange 7 4))).
Proof.
  split; [|split].
  - destruct (entity_index_only_labels reference_sizing
                (QuantumCircuit.Build 8 "qc" []) 1 2) as (_ & _ & Ha);
      [by vm_compute|].
    destruct Ha as (Ha & _); [by vm_compute|]. apply Ha. by vm_compute.
  - destruct (entity_index_only_labels reference_sizing
                (QuantumCircuit.Build 8 "qc" []) 1 2) as (_ & _ & Ha);
      [by vm_compute|].
    destruct Ha as (_ & Hg & _); [by vm_compute|].
    destruct Hg as [_ Hi]; [by vm_compute|by vm_compute|].
    intros Heq. apply Hi in Heq. discriminate Heq.
  - destruct (entity_index_only_labels reference_sizing
                (QuantumCircuit.Build 4 "qc" []) 1 1) as (_ & Hr & _);
      [by vm_compute|].
    apply Hr. by vm_compute.
Defined.

(** X14: [apply_trade_barter] raises [TypeError] on every circuit and
    leaves the circuit as it was: the call of [append] passes a keyword the
    method does not have.  So the construction never runs to its end: for
    every width configuration the composer raises, and when the state
    preparation and the proclamation are built the exception is that
    [TypeError], the circuit holding their instructions, the Hadamards and
    eighteen more, six barriers among them. *)
Theorem exchange_is_refused (w : widths) (qc : QuantumCircuit.t) :
  apply_trade_barter w qc = (qc, Raise TypeError) /\
  (exists e, Composer w = Raise e) /\
  (1 <= PHASE_QUBITS w -> 1 <= EXISTENCE_QUBITS w ->
   0 <= RESOURCE_QUBITS w -> 2 <= TPP_VALUE_QUBITS w ->
   Composer w = Raise TypeError /\
   Equaddle_Nights_Landing_Final w
   = Stopped (QuantumCircuit.Build (TOTAL_QUBITS w) "Equaddle_Nights_Landing_Final"
                (operation_sequence w)) TypeError /\
   built (Equaddle_Nights_Landing_Final w) = built (through_proclamation w) /\
   length (operation_sequence w) = (Z.to_nat (PHASE_QUBITS w) + 18)%nat /\
   barrier_count (operation_sequence w) = 6%nat).
Proof.
  split; [reflexivity|]. split.
  - unfold Composer.
    destruct (Equaddle_Nights_Landing_Final w) as [qc'|qc' e|e] eqn:Hr.
    + by apply construction_never_completes in Hr.
    + by exists e.
    + by exists e.
  - intros HP HE HR HV. unfold Composer.
    rewrite construction_stopped, through_proclamation_completed by done.
    split; [done|]. split; [done|]. split; [done|].
    split; [apply length_operation_sequence|apply barrier_count_operation_sequence].
Qed.
